(** * go-logx: masking, sticky fields and the default-logger latch

    A shallow embedding of the package [logx] (files [mask.go],
    [logger.go], [logx.go]) and the properties of its masking rules, its
    leveled and formatted log methods, [With] and [Init].

    Conventions of the embedding.
    - A Go [string] is a sequence of bytes: Rocq's [string], one [ascii]
      per byte.  Go's [len] on a string is its number of bytes; text is
      UTF-8, so one character may take several bytes.
    - Go's [int] values that occur here are lengths and small constants;
      they are written in [Z].
    - An [interface{}] value is the tagged union [dyn].
    - A run-time panic is the result [None] of a pure function and the
      outcome [Panic] of a stateful one.
    - The locks ([sync.RWMutex]) are not modelled: every function below is
      one sequential call. *)

From Stdlib Require Import ZArith NArith String Ascii List Lia Bool.
From Stdlib Require Import Strings.Byte.
From stdpp Require Import base option list gmap strings.

Import ListNotations.
Local Open Scope string_scope.

(** ** Strings as Go has them *)

Module GoString.

Local Open Scope Z_scope.

(** [len(s)] for a string: the number of bytes, as a Go [int]. *)
Definition len (s : string) : Z := Z.of_nat (String.length s).

Fixpoint drop_bytes (n : nat) (s : string) : string :=
  match n, s with
  | O, _ => s
  | S _, EmptyString => EmptyString
  | S n', String _ s' => drop_bytes n' s'
  end.

Fixpoint take_bytes (n : nat) (s : string) : string :=
  match n, s with
  | O, _ => EmptyString
  | S _, EmptyString => EmptyString
  | S n', String c s' => String c (take_bytes n' s')
  end.

(** The slice expression [s[lo:hi]].  Go panics ("slice bounds out of
    range") unless [0 <= lo <= hi <= len(s)]. *)
Definition slice (s : string) (lo hi : Z) : option string :=
  if (0 <=? lo) && (lo <=? hi) && (hi <=? len s)
  then Some (take_bytes (Z.to_nat (hi - lo)) (drop_bytes (Z.to_nat lo) s))
  else None.

(** [s[:hi]] and [s[lo:]]. *)
Definition slice_to (s : string) (hi : Z) : option string := slice s 0 hi.
Definition slice_from (s : string) (lo : Z) : option string := slice s lo (len s).

(** Bytes below [utf8.RuneSelf] (0x80) are the ASCII characters. *)
Definition is_ascii_byte (c : ascii) : bool := (N_of_ascii c <? 128)%N.

Definition is_upper_byte (c : ascii) : bool :=
  ((65 <=? N_of_ascii c) && (N_of_ascii c <=? 90))%N.

(** ['A' <= c && c <= 'Z'] then [c += 'a' - 'A']. *)
Definition lower_byte (c : ascii) : ascii :=
  if is_upper_byte c then ascii_of_N (N_of_ascii c + 32) else c.

Fixpoint all_bytes (p : ascii -> bool) (s : string) : bool :=
  match s with
  | EmptyString => true
  | String c s' => p c && all_bytes p s'
  end.

Fixpoint map_bytes (f : ascii -> ascii) (s : string) : string :=
  match s with
  | EmptyString => EmptyString
  | String c s' => String (f c) (map_bytes f s')
  end.

(** A UTF-8 continuation byte has the form [10xxxxxx]. *)
Definition is_continuation_byte (c : ascii) : bool :=
  ((128 <=? N_of_ascii c) && (N_of_ascii c <? 192))%N.

(** The number of characters of a UTF-8 text ([utf8.RuneCountInString] on
    well-formed text): every byte that is not a continuation byte starts
    one character. *)
Fixpoint RuneCountInString (s : string) : Z :=
  match s with
  | EmptyString => 0
  | String c s' =>
      (if is_continuation_byte c then 0 else 1) + RuneCountInString s'
  end.

(** [string(b)] for a byte slice [b], and [[]byte(s)]. *)
Definition of_bytes (b : list byte) : string := string_of_list_byte b.
Definition to_bytes (s : string) : list byte := list_byte_of_string s.

End GoString.

(** ** Data of the package *)

(** A value held in an [interface{}], by its dynamic type.  A [float64] is
    kept as its 64 bits; a non-nil [error] by its message; a value of any
    other type by the name of the type and a rendering of it. *)
Inductive dyn : Type :=
| VNil
| VString (s : string)
| VBytes (b : list byte)
| VInt (n : Z)
| VInt64 (n : Z)
| VFloat64 (bits : Z)
| VBool (b : bool)
| VError (msg : string)
| VOther (type_name : string) (repr : string).

(** Whether the dynamic type is [string] (the "text" type of the spec). *)
Definition is_text (v : dyn) : bool :=
  match v with VString _ => true | _ => false end.

(** [type Field struct { Key string; Value interface{} }] *)
Record Field := { Key : string; Value : dyn }.

(** A [zap.Field] as built by [zap.Any(key, value)]. *)
Record ZapField := { zap_Key : string; zap_Value : dyn }.

Definition zap_Any (key : string) (value : dyn) : ZapField :=
  {| zap_Key := key; zap_Value := value |}.

(** [type Level int] with its constants ([iota]). *)
Definition TraceLevel : Z := 0.
Definition DebugLevel : Z := 1.
Definition InfoLevel : Z := 2.
Definition WarnLevel : Z := 3.
Definition ErrorLevel : Z := 4.
Definition FatalLevel : Z := 5.

(** [type Config struct] *)
Record Config := {
  Level : Z;
  OutputPath : string;
  Development : bool;
  AddCaller : bool;
  AddStacktrace : bool
}.

Definition DefaultConfig : Config :=
  {| Level := InfoLevel; OutputPath := ""; Development := false;
     AddCaller := true; AddStacktrace := true |}.

(** The severities of the engine that the package uses. *)
Inductive ZapLevel := zap_DebugLevel | zap_InfoLevel | zap_WarnLevel
                    | zap_ErrorLevel | zap_FatalLevel.

Inductive Encoder := ConsoleEncoder | JSONEncoder.
Inductive WriteSyncer := Stdout | LogFile (path : string).

(** What [New] fixes of a [*zap.Logger]: the core (encoder, output, minimum
    level) and the two options. *)
Record ZapLogger := {
  core_encoder : Encoder;
  core_output : WriteSyncer;
  core_level : ZapLevel;
  with_caller : bool;
  with_stacktrace : bool
}.

(** A slice header: backing array, length, capacity. *)
Record Slice := { s_array : nat; s_len : nat; s_cap : nat }.

(** [type Logger struct { zapLogger *zap.Logger; fields []Field; mu ... }]:
    the engine is held by reference (an address in [heap_zap]). *)
Record Logger := { zapLogger : nat; fields : Slice }.

(** One call received by an engine: which engine, at which severity, the
    message and the fields.  The position of the caller, which the engine
    reads off the call stack when [AddCaller] is on, is not part of it. *)
Record Entry := {
  entry_engine : nat;
  entry_level : ZapLevel;
  entry_msg : string;
  entry_fields : list ZapField
}.

(** ** The state of the process

    The heap (backing arrays of [[]Field] slices, [Logger] structs, engines),
    the calls the engines have received so far, and the package variables
    [sensitiveKeys], [defaultLogger] and [once]. *)
Record State := {
  heap_arrays : list (list Field);
  heap_loggers : list Logger;
  heap_zap : list ZapLogger;
  zap_calls : list Entry;
  var_sensitiveKeys : gmap string bool;
  var_defaultLogger : option nat;
  var_once : bool
}.

Definition set_arrays (f : list (list Field) -> list (list Field)) (st : State) : State :=
  {| heap_arrays := f (heap_arrays st); heap_loggers := heap_loggers st;
     heap_zap := heap_zap st; zap_calls := zap_calls st;
     var_sensitiveKeys := var_sensitiveKeys st;
     var_defaultLogger := var_defaultLogger st; var_once := var_once st |}.

Definition set_loggers (f : list Logger -> list Logger) (st : State) : State :=
  {| heap_arrays := heap_arrays st; heap_loggers := f (heap_loggers st);
     heap_zap := heap_zap st; zap_calls := zap_calls st;
     var_sensitiveKeys := var_sensitiveKeys st;
     var_defaultLogger := var_defaultLogger st; var_once := var_once st |}.

Definition set_zap (f : list ZapLogger -> list ZapLogger) (st : State) : State :=
  {| heap_arrays := heap_arrays st; heap_loggers := heap_loggers st;
     heap_zap := f (heap_zap st); zap_calls := zap_calls st;
     var_sensitiveKeys := var_sensitiveKeys st;
     var_defaultLogger := var_defaultLogger st; var_once := var_once st |}.

Definition set_calls (f : list Entry -> list Entry) (st : State) : State :=
  {| heap_arrays := heap_arrays st; heap_loggers := heap_loggers st;
     heap_zap := heap_zap st; zap_calls := f (zap_calls st);
     var_sensitiveKeys := var_sensitiveKeys st;
     var_defaultLogger := var_defaultLogger st; var_once := var_once st |}.

Definition set_sensitiveKeys (f : gmap string bool -> gmap string bool) (st : State) : State :=
  {| heap_arrays := heap_arrays st; heap_loggers := heap_loggers st;
     heap_zap := heap_zap st; zap_calls := zap_calls st;
     var_sensitiveKeys := f (var_sensitiveKeys st);
     var_defaultLogger := var_defaultLogger st; var_once := var_once st |}.

Definition set_defaultLogger (l : option nat) (st : State) : State :=
  {| heap_arrays := heap_arrays st; heap_loggers := heap_loggers st;
     heap_zap := heap_zap st; zap_calls := zap_calls st;
     var_sensitiveKeys := var_sensitiveKeys st;
     var_defaultLogger := l; var_once := var_once st |}.

Definition set_once (b : bool) (st : State) : State :=
  {| heap_arrays := heap_arrays st; heap_loggers := heap_loggers st;
     heap_zap := heap_zap st; zap_calls := zap_calls st;
     var_sensitiveKeys := var_sensitiveKeys st;
     var_defaultLogger := var_defaultLogger st; var_once := b |}.

(** ** Calls: a result with the new state, a panic, or [os.Exit] *)

Inductive Outcome (A : Type) : Type :=
| Ret (a : A) (st : State)
| Panic (st : State)
| Exit (code : Z) (st : State).
Arguments Ret {A} a st.
Arguments Panic {A} st.
Arguments Exit {A} code st.

Definition M (A : Type) : Type := State -> Outcome A.

#[export] Instance M_ret : MRet M := fun A a st => Ret a st.

#[export] Instance M_bind : MBind M := fun A B f m st =>
  match m st with
  | Ret a st' => f a st'
  | Panic st' => Panic st'
  | Exit code st' => Exit code st'
  end.

Definition get {A} (proj : State -> A) : M A := fun st => Ret (proj st) st.
Definition modify (f : State -> State) : M unit := fun st => Ret tt (f st).
Definition panic {A} : M A := fun st => Panic st.
Definition os_Exit {A} (code : Z) : M A := fun st => Exit code st.

(** ** Slices of [Field] in the heap *)

(** The zero value of [Field]. *)
Definition zero_Field : Field := {| Key := ""; Value := VNil |}.

(** The elements of a slice, as a [range] loop or a [s...] argument reads
    them. *)
Definition elems (st : State) (s : Slice) : list Field :=
  take (s_len s) (default [] (heap_arrays st !! s_array s)).

Definition range (s : Slice) : M (list Field) := fun st => Ret (elems st s) st.

(** [make([]Field, 0, n)], and the literal [[]Field{}] for [n = 0]: a new
    backing array of [n] zero elements. *)
Definition make_slice (n : nat) : M Slice := fun st =>
  Ret {| s_array := length (heap_arrays st); s_len := 0; s_cap := n |}
      (set_arrays (fun h => (h ++ [replicate n zero_Field])%list) st).

(** [&Logger{...}]: a new struct in the heap. *)
Definition new_Logger (L : Logger) : M (option nat) := fun st =>
  Ret (Some (length (heap_loggers st))) (set_loggers (fun h => (h ++ [L])%list) st).

(** Reading through a [*Logger]: [nil] panics.  (An address outside the
    heap does not exist in Go; it is a panic here as well.) *)
Definition deref (l : option nat) : M Logger := fun st =>
  match l with
  | None => Panic st
  | Some p =>
      match heap_loggers st !! p with
      | Some L => Ret L st
      | None => Panic st
      end
  end.

(** The engine's leveled methods: the call reaches the engine [z], which
    filters and writes it.  A [nil] engine panics. *)
Definition zap_log (z : nat) (lvl : ZapLevel) (msg : string)
    (zapFields : list ZapField) : M unit := fun st =>
  match heap_zap st !! z with
  | None => Panic st
  | Some _ =>
      Ret tt (set_calls (fun c => (c ++ [{| entry_engine := z; entry_level := lvl;
                                            entry_msg := msg;
                                            entry_fields := zapFields |}])%list) st)
  end.

(** Reading through a [zap.Logger] pointer, as its methods do. *)
Definition zap_deref (z : nat) : M ZapLogger := fun st =>
  match heap_zap st !! z with
  | Some Z => Ret Z st
  | None => Panic st
  end.

(** [zapLogger.Fatal]: the entry is written, then [os.Exit(1)]. *)
Definition zap_Fatal (z : nat) (msg : string) (zapFields : list ZapField)
  : M unit :=
  _ ← zap_log z zap_FatalLevel msg zapFields; os_Exit 1.

(** [var sensitiveKeys = map[string]bool{...}]: the initial value of the
    package variable. *)
Definition sensitiveKeys : gmap string bool :=
  list_to_map
    [ ("password", true); ("passwd", true); ("pass", true); ("ssn", true);
      ("token", true); ("apikey", true); ("api_key", true);
      ("secret", true); ("key", true); ("email", true); ("phone", true);
      ("credit_card", true); ("cc", true); ("cvv", true); ("pin", true);
      ("auth", true); ("authorization", true); ("bearer", true);
      ("jwt", true) ].

(** The state in which the process starts. *)
Definition initial_state : State :=
  {| heap_arrays := []; heap_loggers := []; heap_zap := []; zap_calls := [];
     var_sensitiveKeys := sensitiveKeys; var_defaultLogger := None;
     var_once := false |}.

(** [func (l Level) String() string] *)
Definition Level_String (l : Z) : string :=
  if (l =? TraceLevel)%Z then "TRACE"
  else if (l =? DebugLevel)%Z then "DEBUG"
  else if (l =? InfoLevel)%Z then "INFO"
  else if (l =? WarnLevel)%Z then "WARN"
  else if (l =? ErrorLevel)%Z then "ERROR"
  else if (l =? FatalLevel)%Z then "FATAL"
  else "UNKNOWN".

(** The field constructors of logger.go ([String], [Int], [Int64],
    [Float64], [Bool], [Any], [ErrorField]).  An [error] argument is [None]
    ([nil]) or its message. *)
Definition Field_String (key value : string) : Field :=
  {| Key := key; Value := VString value |}.

Definition Field_Int (key : string) (value : Z) : Field :=
  {| Key := key; Value := VInt value |}.

Definition Field_Int64 (key : string) (value : Z) : Field :=
  {| Key := key; Value := VInt64 value |}.

Definition Field_Float64 (key : string) (bits : Z) : Field :=
  {| Key := key; Value := VFloat64 bits |}.

Definition Field_Bool (key : string) (value : bool) : Field :=
  {| Key := key; Value := VBool value |}.

Definition Field_Any (key : string) (value : dyn) : Field :=
  {| Key := key; Value := value |}.

Definition ErrorField (err : option string) : Field :=
  {| Key := "error";
     Value := match err with None => VNil | Some msg => VError msg end |}.

(** The names in the initial [sensitiveKeys]. *)
Definition builtin_names : list string :=
  [ "password"; "passwd"; "pass"; "ssn"; "token"; "apikey"; "api_key";
    "secret"; "key"; "email"; "phone"; "credit_card"; "cc"; "cvv"; "pin";
    "auth"; "authorization"; "bearer"; "jwt" ].

(** The result of [Sync] of every engine in the examples: no error. *)
Definition example_zap_Sync (z : ZapLogger) : option string := None.

(** ** A runtime for the examples

    One choice of the parameters of the development, on which the
    definitions can be evaluated: texts outside ASCII are left as they are
    by the lower-casing, [Sprintf] puts the texts among its arguments
    behind the format, the file "/nonexistent/app.log" cannot be opened,
    and [append] doubles the capacity. *)

Definition example_unicode_ToLower (s : string) : string := s.

Definition example_Sprintf (format : string) (args : list dyn) : string :=
  fold_left (fun acc a => match a with VString t => acc ++ t | _ => acc end)
            args format.

Definition example_OpenFile (path : string) : option string :=
  if String.eqb path "/nonexistent/app.log"
  then Some "open /nonexistent/app.log: no such file or directory"
  else None.

Definition example_growslice (cap n : nat) : nat := (2 * cap)%nat.

(** A configuration whose output file cannot be opened. *)
Definition example_unopenable_Config : Config :=
  {| Level := InfoLevel; OutputPath := "/nonexistent/app.log";
     Development := false; AddCaller := true; AddStacktrace := true |}.

(** A state with one engine, the logger 0 made by [New] and its child 1
    made by [With] for the sticky field "user". *)
Definition example_state : State :=
  {| heap_arrays := [[]; [{| Key := "user"; Value := VString "bob" |}]];
     heap_loggers :=
       [{| zapLogger := 0;
           fields := {| s_array := 0; s_len := 0; s_cap := 0 |} |};
        {| zapLogger := 0;
           fields := {| s_array := 1; s_len := 1; s_cap := 1 |} |}];
     heap_zap := [{| core_encoder := JSONEncoder; core_output := Stdout;
                     core_level := zap_InfoLevel; with_caller := true;
                     with_stacktrace := true |}];
     zap_calls := [];
     var_sensitiveKeys := sensitiveKeys;
     var_defaultLogger := Some 0;
     var_once := true |}.

(** The text of two characters "e with acute accent", four bytes in
    UTF-8. *)
Definition example_two_characters : string :=
  String "195" (String "169" (String "195" (String "169" EmptyString))).

(** The text of the one character "euro sign", three bytes in UTF-8. *)
Definition example_one_character : string :=
  String "226" (String "130" (String "172" EmptyString)).

Section Logx.

(** ** The Go runtime and standard library, as far as the package uses them

    None of these is code of the repository; each is a parameter of the
    development. *)

(** [strings.Map(unicode.ToLower, s)]: the lower-casing of a text that has
    a byte outside ASCII, by the Unicode tables of the runtime. *)
Variable unicode_ToLower : string -> string.

(** [fmt.Sprintf]. *)
Variable Sprintf : string -> list dyn -> string.

(** [os.OpenFile(path, O_APPEND|O_CREATE|O_WRONLY, 0644)]: [Some msg] is
    the error it returns, [None] a file opened. *)
Variable OpenFile : string -> option string.

(** The capacity the runtime gives the new backing array when [append]
    has to grow a slice of capacity [cap] to hold [n] elements. *)
Variable growslice : nat -> nat -> nat.

(** [Sync] of a [zap.Logger]: the error, if any, that flushing the output of
    an engine gives. *)
Variable zap_Sync : ZapLogger -> option string.

(** [strings.ToLower].  The standard library scans the bytes; an
    all-ASCII string is lower-cased byte by byte, any other goes through
    the Unicode tables. *)
Definition ToLower (s : string) : string :=
  if GoString.all_bytes GoString.is_ascii_byte s
  then GoString.map_bytes GoString.lower_byte s
  else unicode_ToLower s.

(** [append(s, xs...)].  With room in the backing array the elements are
    written in place after the first [len(s)]; otherwise a new,
    sufficiently large array receives the old elements and [xs]. *)
Definition append (s : Slice) (xs : list Field) : M Slice := fun st =>
  let n := (s_len s + length xs)%nat in
  if (n <=? s_cap s)%nat then
    Ret {| s_array := s_array s; s_len := n; s_cap := s_cap s |}
        (set_arrays
           (alter (fun a => (take (s_len s) a ++ xs ++ drop n a)%list) (s_array s)) st)
  else
    let c := Nat.max n (growslice (s_cap s) n) in
    Ret {| s_array := length (heap_arrays st); s_len := n; s_cap := c |}
        (set_arrays
           (fun h => (h ++ [elems st s ++ xs ++ replicate (c - n)%nat zero_Field])%list)
           st).

(** ** mask.go *)

(** [sensitiveKeys[strings.ToLower(key)] = true] *)
Definition AddSensitiveKey (key : string) (keys : gmap string bool)
  : gmap string bool :=
  <[ ToLower key := true ]> keys.

(** [delete(sensitiveKeys, strings.ToLower(key))] *)
Definition RemoveSensitiveKey (key : string) (keys : gmap string bool)
  : gmap string bool :=
  delete (ToLower key) keys.

(** [return sensitiveKeys[strings.ToLower(key)]]: indexing a Go map at an
    absent key gives the zero value, [false]. *)
Definition isSensitiveKey (keys : gmap string bool) (key : string) : bool :=
  default false (keys !! ToLower key).

(** [maskString].  [None] would be an out-of-range slice expression. *)
Definition maskString (value : string) : option string :=
  if (GoString.len value =? 0)%Z then Some ""
  else if (GoString.len value <=? 2)%Z then Some "***"
  else if (GoString.len value <=? 4)%Z then
    a ← GoString.slice_to value 1;
    b ← GoString.slice_from value (GoString.len value - 1);
    Some (a ++ "***" ++ b)
  else
    a ← GoString.slice_to value 2;
    b ← GoString.slice_from value (GoString.len value - 2);
    Some (a ++ "***" ++ b).

(** [maskSensitiveData], on the registry [keys] that [isSensitiveKey]
    reads. *)
Definition maskSensitiveData (keys : gmap string bool) (key : string)
    (value : dyn) : option dyn :=
  if negb (isSensitiveKey keys key) then Some value
  else
    match value with
    | VString v =>
        if String.eqb v "" then Some (VString v)
        else VString <$> maskString v
    | VBytes v =>
        if (Z.of_nat (length v) =? 0)%Z then Some (VBytes v)
        else VString <$> maskString (GoString.of_bytes v)
    | _ => Some (VString "***MASKED***")
    end.

(** The three registry functions and the masker as calls on the package
    variable. *)
Definition call_AddSensitiveKey (key : string) : M unit :=
  modify (set_sensitiveKeys (AddSensitiveKey key)).

Definition call_RemoveSensitiveKey (key : string) : M unit :=
  modify (set_sensitiveKeys (RemoveSensitiveKey key)).

Definition call_maskSensitiveData (key : string) (value : dyn) : M dyn :=
  fun st =>
    match maskSensitiveData (var_sensitiveKeys st) key value with
    | Some v => Ret v st
    | None => Panic st
    end.

(** ** logger.go *)

(** The body of the [for _, field := range fields] loop of
    [convertFields], with the slice [zapFields] built so far. *)
Fixpoint convertFields_loop (fs : list Field) (zapFields : list ZapField)
  : M (list ZapField) :=
  match fs with
  | [] => mret zapFields
  | field :: rest =>
      maskedValue ← call_maskSensitiveData (Key field) (Value field);
      convertFields_loop rest (zapFields ++ [zap_Any (Key field) maskedValue])%list
  end.

(** [func (l *Logger) convertFields(fields []Field) []zap.Field]; the
    receiver is not used. *)
Definition convertFields (l : option nat) (fields : Slice)
  : M (list ZapField) :=
  fs ← range fields;
  convertFields_loop fs [].

Definition Logger_Trace (l : option nat) (msg : string) (fields_ : list Field)
  : M unit :=
  L ← deref l;
  allFields ← append (fields L) fields_;
  zapFields ← convertFields l allFields;
  zap_log (zapLogger L) zap_DebugLevel msg zapFields.

Definition Logger_Debug (l : option nat) (msg : string) (fields_ : list Field)
  : M unit :=
  L ← deref l;
  allFields ← append (fields L) fields_;
  zapFields ← convertFields l allFields;
  zap_log (zapLogger L) zap_DebugLevel msg zapFields.

Definition Logger_Info (l : option nat) (msg : string) (fields_ : list Field)
  : M unit :=
  L ← deref l;
  allFields ← append (fields L) fields_;
  zapFields ← convertFields l allFields;
  zap_log (zapLogger L) zap_InfoLevel msg zapFields.

Definition Logger_Warn (l : option nat) (msg : string) (fields_ : list Field)
  : M unit :=
  L ← deref l;
  allFields ← append (fields L) fields_;
  zapFields ← convertFields l allFields;
  zap_log (zapLogger L) zap_WarnLevel msg zapFields.

Definition Logger_Error (l : option nat) (msg : string) (fields_ : list Field)
  : M unit :=
  L ← deref l;
  allFields ← append (fields L) fields_;
  zapFields ← convertFields l allFields;
  zap_log (zapLogger L) zap_ErrorLevel msg zapFields.

Definition Logger_Fatal (l : option nat) (msg : string) (fields_ : list Field)
  : M unit :=
  L ← deref l;
  allFields ← append (fields L) fields_;
  zapFields ← convertFields l allFields;
  zap_Fatal (zapLogger L) msg zapFields.

(** The formatted methods: [msg := fmt.Sprintf(format, args...)] and the
    plain method with no field. *)
Definition Logger_Tracef (l : option nat) (format : string) (args : list dyn)
  : M unit :=
  let msg := Sprintf format args in Logger_Trace l msg [].

Definition Logger_Debugf (l : option nat) (format : string) (args : list dyn)
  : M unit :=
  let msg := Sprintf format args in Logger_Debug l msg [].

Definition Logger_Infof (l : option nat) (format : string) (args : list dyn)
  : M unit :=
  let msg := Sprintf format args in Logger_Info l msg [].

Definition Logger_Warnf (l : option nat) (format : string) (args : list dyn)
  : M unit :=
  let msg := Sprintf format args in Logger_Warn l msg [].

Definition Logger_Errorf (l : option nat) (format : string) (args : list dyn)
  : M unit :=
  let msg := Sprintf format args in Logger_Error l msg [].

Definition Logger_Fatalf (l : option nat) (format : string) (args : list dyn)
  : M unit :=
  let msg := Sprintf format args in Logger_Fatal l msg [].

(** [func (l *Logger) With(fields ...Field) *Logger] *)
Definition Logger_With (l : option nat) (fields_ : list Field)
  : M (option nat) :=
  L ← deref l;
  newFields ← make_slice (s_len (fields L) + length fields_)%nat;
  own ← range (fields L);
  newFields ← append newFields own;
  newFields ← append newFields fields_;
  new_Logger {| zapLogger := zapLogger L; fields := newFields |}.

(** [zap.New(core, options...)]: a new engine. *)
Definition zap_New (z : ZapLogger) : M nat := fun st =>
  Ret (length (heap_zap st)) (set_zap (fun h => (h ++ [z])%list) st).

(** The [switch config.Level] of [New]; [zapLevel] starts at
    [zapcore.InfoLevel]. *)
Definition zapLevel_of (level : Z) : ZapLevel :=
  if (level =? TraceLevel)%Z then zap_DebugLevel
  else if (level =? DebugLevel)%Z then zap_DebugLevel
  else if (level =? InfoLevel)%Z then zap_InfoLevel
  else if (level =? WarnLevel)%Z then zap_WarnLevel
  else if (level =? ErrorLevel)%Z then zap_ErrorLevel
  else if (level =? FatalLevel)%Z then zap_FatalLevel
  else zap_InfoLevel.

(** [New(config)], which returns a [Logger] pointer and an [error]; an
    [error] is [None] ([nil]) or its message.  A [nil] configuration panics
    at [config.Level].  The encoder configuration (the fixed key names and
    the time format) is the same constant in every call and is left out of
    [ZapLogger]. *)
Definition New (config : option Config) : M (option nat * option string) :=
  match config with
  | None => panic
  | Some config =>
      let zapLevel := zapLevel_of (Level config) in
      let build (enc : Encoder) (output : WriteSyncer) : M (option nat * option string) :=
        z ← zap_New {| core_encoder := enc; core_output := output;
                       core_level := zapLevel;
                       with_caller := AddCaller config;
                       with_stacktrace := AddStacktrace config |};
        empty ← make_slice 0;
        p ← new_Logger {| zapLogger := z; fields := empty |};
        mret (p, None) in
      if Development config then build ConsoleEncoder Stdout
      else if negb (String.eqb (OutputPath config) "") then
        match OpenFile (OutputPath config) with
        | Some err => mret (None, Some ("failed to open log file: " ++ err))
        | None => build JSONEncoder (LogFile (OutputPath config))
        end
      else build JSONEncoder Stdout
  end.

(** ** logx.go *)

(** [func Init(config *Config) error].  [once.Do(f)] runs [f] only when
    [once] has not run anything yet, and marks [once] also when [f]
    panics. *)
Definition Init (config : option Config) : M (option string) :=
  done ← get var_once;
  if (done : bool) then
    (* var err error; f is not called; return err *)
    mret None
  else
    _ ← modify (set_once true);
    r ← New config;
    _ ← modify (set_defaultLogger (fst r));
    mret (snd r).

Definition InitDefault : M (option string) := Init (Some DefaultConfig).

(** ** Notions used by the statements below *)

(** The six leveled methods, their formatted variants, and the severity
    at which each calls the engine. *)
Inductive LevelMethod :=
| MTrace | MDebug | MInfo | MWarn | MError | MFatal.

Definition call_method (m : LevelMethod)
  : option nat -> string -> list Field -> M unit :=
  match m with
  | MTrace => Logger_Trace
  | MDebug => Logger_Debug
  | MInfo => Logger_Info
  | MWarn => Logger_Warn
  | MError => Logger_Error
  | MFatal => Logger_Fatal
  end.

Definition call_methodf (m : LevelMethod)
  : option nat -> string -> list dyn -> M unit :=
  match m with
  | MTrace => Logger_Tracef
  | MDebug => Logger_Debugf
  | MInfo => Logger_Infof
  | MWarn => Logger_Warnf
  | MError => Logger_Errorf
  | MFatal => Logger_Fatalf
  end.

Definition method_level (m : LevelMethod) : ZapLevel :=
  match m with
  | MTrace => zap_DebugLevel
  | MDebug => zap_DebugLevel
  | MInfo => zap_InfoLevel
  | MWarn => zap_WarnLevel
  | MError => zap_ErrorLevel
  | MFatal => zap_FatalLevel
  end.

(** How a leveled method ends once the engine has the entry: the fatal
    one leaves the process with status 1, the others return. *)
Definition finish (m : LevelMethod) (st : State) : Outcome unit :=
  match m with
  | MFatal => Exit 1 st
  | _ => Ret tt st
  end.

(** A slice header that lies within its backing array. *)
Definition slice_ok (st : State) (s : Slice) : Prop :=
  exists a, heap_arrays st !! s_array s = Some a
            /\ (s_cap s <= length a)%nat /\ (s_len s <= s_cap s)%nat.

(** The state [st] with the backing arrays [h] instead of its own. *)
Definition with_arrays (h : list (list Field)) (st : State) : State :=
  set_arrays (fun _ => h) st.

(** [zf] is the engine field of [f] under the registry [keys]: same key,
    value passed through the masker. *)
Definition masked_as (keys : gmap string bool) (f : Field) (zf : ZapField)
  : Prop :=
  zap_Key zf = Key f
  /\ maskSensitiveData keys (Key f) (Value f) = Some (zap_Value zf).

(** [k'] differs from [k] at most in letter case: both have the same
    lower-case form. *)
Definition case_variant (k k' : string) : Prop := ToLower k' = ToLower k.

(** A key in lower case: lower-casing leaves it as it is. *)
Definition is_lowercase (k : string) : Prop := ToLower k = k.

(** Calls of [AddSensitiveKey] and [RemoveSensitiveKey], and the registry
    after a sequence of them. *)
Inductive RegistryCall :=
| CallAdd (key : string)
| CallRemove (key : string).

Definition registry_step (keys : gmap string bool) (c : RegistryCall)
  : gmap string bool :=
  match c with
  | CallAdd key => AddSensitiveKey key keys
  | CallRemove key => RemoveSensitiveKey key keys
  end.

Definition registry_after (calls : list RegistryCall) : gmap string bool :=
  fold_left registry_step calls sensitiveKeys.

(** The string-masking rule on a length [L] of the text: [r] is what the
    rule gives for [v] when [v] counts [L] units and [a], [b] are its
    first and last pieces of one or two units. *)
Definition banded_rule (v r : string) : Prop :=
  let L := GoString.len v in
  (L = 0 /\ r = "")%Z
  \/ (1 <= L <= 2 /\ r = "***")%Z
  \/ ((3 <= L <= 4)%Z
      /\ exists a mid b, v = a ++ mid ++ b
           /\ GoString.len a = 1%Z /\ GoString.len b = 1%Z
           /\ r = a ++ "***" ++ b)
  \/ ((5 <= L)%Z
      /\ exists a mid b, v = a ++ mid ++ b
           /\ GoString.len a = 2%Z /\ GoString.len b = 2%Z
           /\ r = a ++ "***" ++ b).

(** The length of the masked text by the band of the length [L]. *)
Definition banded_length (L : Z) : Z :=
  if (L =? 0)%Z then 0
  else if (L <=? 2)%Z then 3
  else if (L <=? 4)%Z then 5
  else 7.

(** Whether the dynamic type is [[]byte]. *)
Definition is_bytes (v : dyn) : bool :=
  match v with VBytes _ => true | _ => false end.

(** ** The rest of logger.go and logx.go *)

(** [Sync], the method of a [Logger] pointer [l] *)
Definition Logger_Sync (l : option nat) : M (option string) :=
  L ← deref l;
  z ← zap_deref (zapLogger L);
  mret (zap_Sync z).

(** [func NewLogger()], returning a [Logger] pointer and an [error] *)
Definition NewLogger : M (option nat * option string) :=
  New (Some DefaultConfig).

(** The package-level functions of logx.go: each reads [defaultLogger] and
    calls the method when it is not [nil]. *)
Definition logx_Trace (msg : string) (fields_ : list Field) : M unit :=
  d ← get var_defaultLogger;
  match d with
  | Some _ => Logger_Trace d msg fields_
  | None => mret tt
  end.

Definition logx_Tracef (format : string) (args : list dyn) : M unit :=
  d ← get var_defaultLogger;
  match d with
  | Some _ => Logger_Tracef d format args
  | None => mret tt
  end.

Definition logx_Debugf (format : string) (args : list dyn) : M unit :=
  d ← get var_defaultLogger;
  match d with
  | Some _ => Logger_Debugf d format args
  | None => mret tt
  end.

Definition logx_Debug (msg : string) (fields_ : list Field) : M unit :=
  d ← get var_defaultLogger;
  match d with
  | Some _ => Logger_Debug d msg fields_
  | None => mret tt
  end.

Definition logx_Info (msg : string) (fields_ : list Field) : M unit :=
  d ← get var_defaultLogger;
  match d with
  | Some _ => Logger_Info d msg fields_
  | None => mret tt
  end.

Definition logx_Warn (msg : string) (fields_ : list Field) : M unit :=
  d ← get var_defaultLogger;
  match d with
  | Some _ => Logger_Warn d msg fields_
  | None => mret tt
  end.

Definition logx_Error (msg : string) (fields_ : list Field) : M unit :=
  d ← get var_defaultLogger;
  match d with
  | Some _ => Logger_Error d msg fields_
  | None => mret tt
  end.

(** [Fatal]: without a default logger, [os.Exit(1)]. *)
Definition logx_Fatal (msg : string) (fields_ : list Field) : M unit :=
  d ← get var_defaultLogger;
  match d with
  | Some _ => Logger_Fatal d msg fields_
  | None => os_Exit 1
  end.

Definition logx_With (fields_ : list Field) : M (option nat) :=
  d ← get var_defaultLogger;
  match d with
  | Some _ => Logger_With d fields_
  | None => mret None
  end.

Definition logx_Sync : M (option string) :=
  d ← get var_defaultLogger;
  match d with
  | Some _ => Logger_Sync d
  | None => mret None
  end.

(** ** Notions used by the further statements *)

Definition call_logx (m : LevelMethod) : string -> list Field -> M unit :=
  match m with
  | MTrace => logx_Trace
  | MDebug => logx_Debug
  | MInfo => logx_Info
  | MWarn => logx_Warn
  | MError => logx_Error
  | MFatal => logx_Fatal
  end.

(** A logger as [New] and [With] make them: its slice lies in the heap and
    is full (capacity = length), and its engine exists. *)
Definition logger_ok (st : State) (L : Logger) : Prop :=
  slice_ok st (fields L)
  /\ s_cap (fields L) = s_len (fields L)
  /\ is_Some (heap_zap st !! zapLogger L).

Definition heap_ok (st : State) : Prop :=
  (forall p L, heap_loggers st !! p = Some L -> logger_ok st L)
  /\ (forall p, var_defaultLogger st = Some p ->
                is_Some (heap_loggers st !! p))
  /\ (var_once st = false -> var_defaultLogger st = None).

(** One call of the package by a client that returns, from state to
    state. *)
Inductive Step : State -> State -> Prop :=
| step_New (c : Config) (st st' : State) r :
    New (Some c) st = Ret r st' -> Step st st'
| step_Init (c : option Config) (st st' : State) e :
    Init c st = Ret e st' -> Step st st'
| step_With (p : nat) (fs : list Field) (st st' : State) c :
    Logger_With (Some p) fs st = Ret c st' -> Step st st'
| step_method (m : LevelMethod) (p : nat) (msg : string) (fs : list Field)
    (st st' : State) :
    call_method m (Some p) msg fs st = Ret tt st' -> Step st st'
| step_methodf (m : LevelMethod) (p : nat) (format : string)
    (args : list dyn) (st st' : State) :
    call_methodf m (Some p) format args st = Ret tt st' -> Step st st'
| step_logx (m : LevelMethod) (msg : string) (fs : list Field)
    (st st' : State) :
    call_logx m msg fs st = Ret tt st' -> Step st st'
| step_logx_With (fs : list Field) (st st' : State) c :
    logx_With fs st = Ret c st' -> Step st st'
| step_Add (key : string) (st : State) :
    Step st (set_sensitiveKeys (AddSensitiveKey key) st)
| step_Remove (key : string) (st : State) :
    Step st (set_sensitiveKeys (RemoveSensitiveKey key) st).

(** The states a process can be in. *)
Inductive reachable : State -> Prop :=
| reachable_initial : reachable initial_state
| reachable_step (st st' : State) :
    reachable st -> Step st st' -> reachable st'.


(** The engine [New] makes for a configuration, writing to [output] with
    the encoder [enc]. *)
Definition engine_of (c : Config) (enc : Encoder) (output : WriteSyncer)
  : ZapLogger :=
  {| core_encoder := enc; core_output := output;
     core_level := zapLevel_of (Level c);
     with_caller := AddCaller c; with_stacktrace := AddStacktrace c |}.

(** The state after [New] has made the engine [z]: the engine, an empty
    backing array and the logger are new in the heap. *)
Definition after_New (z : ZapLogger) (st : State) : State :=
  set_loggers
    (fun h => (h ++ [{| zapLogger := length (heap_zap st);
                        fields := {| s_array := length (heap_arrays st);
                                     s_len := 0; s_cap := 0 |} |}])%list)
    (set_arrays (fun h => (h ++ [[]])%list)
       (set_zap (fun h => (h ++ [z])%list) st)).

(** ** Strings *)

Lemma append_cons (c : ascii) (a b : string) :
  String c a ++ b = String c (a ++ b).
Proof. reflexivity. Qed.

Lemma length_append (a b : string) :
  String.length (a ++ b) = (String.length a + String.length b)%nat.
Proof. induction a as [|c a IH]; simpl; [reflexivity | now rewrite IH]. Qed.

Lemma len_append (a b : string) :
  GoString.len (a ++ b) = (GoString.len a + GoString.len b)%Z.
Proof. unfold GoString.len. rewrite length_append. lia. Qed.

Lemma take_drop_bytes (n : nat) (s : string) :
  GoString.take_bytes n s ++ GoString.drop_bytes n s = s.
Proof.
  revert s; induction n as [|n IH]; intros [|c s]; simpl; try reflexivity.
  rewrite append_cons. f_equal. apply IH.
Qed.

Lemma length_take_bytes (n : nat) (s : string) :
  (n <= String.length s)%nat ->
  String.length (GoString.take_bytes n s) = n.
Proof.
  revert s; induction n as [|n IH]; intros [|c s] H; simpl in *;
    try reflexivity; try lia.
  rewrite IH; lia.
Qed.

Lemma length_drop_bytes (n : nat) (s : string) :
  String.length (GoString.drop_bytes n s) = (String.length s - n)%nat.
Proof.
  revert s; induction n as [|n IH]; intros [|c s]; simpl;
    try reflexivity; try lia.
  apply IH.
Qed.

Lemma drop_bytes_all (s : string) :
  GoString.take_bytes (String.length s) s = s.
Proof. induction s as [|c s IH]; simpl; [reflexivity | now rewrite IH]. Qed.

(** [s[:hi]] is the prefix of [hi] bytes. *)
Lemma slice_to_prefix (s : string) (hi : Z) :
  (0 <= hi <= GoString.len s)%Z ->
  GoString.slice_to s hi = Some (GoString.take_bytes (Z.to_nat hi) s)
  /\ GoString.len (GoString.take_bytes (Z.to_nat hi) s) = hi.
Proof.
  intros H. unfold GoString.slice_to, GoString.slice, GoString.len in *.
  replace (0 <=? 0)%Z with true by reflexivity.
  destruct (Z.leb_spec 0 hi); [|lia].
  destruct (Z.leb_spec hi (Z.of_nat (String.length s))); [|lia].
  simpl. rewrite Z.sub_0_r. split; [reflexivity|].
  rewrite length_take_bytes; lia.
Qed.

(** [s[lo:]] is the suffix from byte [lo] on. *)
Lemma slice_from_suffix (s : string) (lo : Z) :
  (0 <= lo <= GoString.len s)%Z ->
  GoString.slice_from s lo = Some (GoString.drop_bytes (Z.to_nat lo) s)
  /\ GoString.len (GoString.drop_bytes (Z.to_nat lo) s)
     = (GoString.len s - lo)%Z.
Proof.
  intros H. unfold GoString.slice_from, GoString.slice, GoString.len in *.
  destruct (Z.leb_spec 0 lo); [|lia].
  destruct (Z.leb_spec lo (Z.of_nat (String.length s))); [|lia].
  rewrite Z.leb_refl. simpl.
  pose proof (length_drop_bytes (Z.to_nat lo) s) as Hd.
  assert (Hlen : Z.to_nat (Z.of_nat (String.length s) - lo)
                 = String.length (GoString.drop_bytes (Z.to_nat lo) s))
    by (rewrite Hd; lia).
  rewrite Hlen, drop_bytes_all. split; [reflexivity|]. rewrite Hd. lia.
Qed.

(** A text splits into its first [i] bytes, a middle, and what follows
    byte [j]. *)
Lemma split_three (i j : nat) (s : string) :
  (i <= j)%nat ->
  s = GoString.take_bytes i s
      ++ GoString.take_bytes (j - i) (GoString.drop_bytes i s)
      ++ GoString.drop_bytes j s.
Proof.
  intros Hij.
  assert (Hd : GoString.drop_bytes j s
               = GoString.drop_bytes (j - i) (GoString.drop_bytes i s)).
  { replace j with (i + (j - i))%nat at 1 by lia.
    generalize (j - i)%nat as d. clear Hij j.
    revert s; induction i as [|i IH]; intros s d; simpl; [reflexivity|].
    destruct s as [|c s]; simpl; [now destruct d | apply IH]. }
  rewrite Hd, take_drop_bytes, take_drop_bytes. reflexivity.
Qed.

(** ** The masker *)

(** [maskString] never slices out of range, and its result is the banded
    rule on [len(value)]. *)
Lemma maskString_spec (v : string) :
  exists r, maskString v = Some r
            /\ banded_rule v r
            /\ GoString.len r = banded_length (GoString.len v).
Proof.
  unfold maskString, banded_rule, banded_length.
  assert (Hnn : (0 <= GoString.len v)%Z) by (unfold GoString.len; lia).
  destruct (Z.eqb_spec (GoString.len v) 0) as [H0|H0].
  { exists "". repeat split; auto. }
  destruct (Z.leb_spec (GoString.len v) 2) as [H2|H2].
  { exists "***". repeat split; auto. right; left. split; [lia | reflexivity]. }
  destruct (Z.leb_spec (GoString.len v) 4) as [H4|H4].
  - destruct (slice_to_prefix v 1) as [Ea La]; [lia|].
    destruct (slice_from_suffix v (GoString.len v - 1)) as [Eb Lb]; [lia|].
    rewrite Ea, Eb. unfold mbind, option_bind.
    eexists; split; [reflexivity|]. split.
    + right; right; left. split; [lia|].
      eexists _, _, _. split; [|split; [exact La | split; [|reflexivity]]].
      * apply (split_three (Z.to_nat 1) (Z.to_nat (GoString.len v - 1))). lia.
      * rewrite Lb. lia.
    + rewrite !len_append, La, Lb. change (GoString.len "***") with 3%Z. lia.
  - destruct (slice_to_prefix v 2) as [Ea La]; [lia|].
    destruct (slice_from_suffix v (GoString.len v - 2)) as [Eb Lb]; [lia|].
    rewrite Ea, Eb. unfold mbind, option_bind.
    eexists; split; [reflexivity|]. split.
    + right; right; right. split; [lia|].
      eexists _, _, _. split; [|split; [exact La | split; [|reflexivity]]].
      * apply (split_three (Z.to_nat 2) (Z.to_nat (GoString.len v - 2))). lia.
      * rewrite Lb. lia.
    + rewrite !len_append, La, Lb. change (GoString.len "***") with 3%Z. lia.
Qed.

(** The masker returns for every key and value. *)
Lemma maskSensitiveData_returns (keys : gmap string bool) (k : string)
    (v : dyn) :
  exists r, maskSensitiveData keys k v = Some r.
Proof.
  unfold maskSensitiveData.
  destruct (isSensitiveKey keys k); simpl; [|eauto].
  destruct v; eauto.
  - destruct (String.eqb s ""); [eauto|].
    destruct (maskString_spec s) as (r & -> & _). simpl. eauto.
  - destruct (Z.of_nat (length b) =? 0)%Z; [eauto|].
    destruct (maskString_spec (GoString.of_bytes b)) as (r & -> & _).
    simpl. eauto.
Qed.

Lemma maskSensitiveData_text (keys : gmap string bool) (k v : string) :
  isSensitiveKey keys k = true ->
  exists r, maskString v = Some r
            /\ maskSensitiveData keys k (VString v) = Some (VString r).
Proof.
  intros Hk. unfold maskSensitiveData. rewrite Hk. simpl.
  destruct (maskString_spec v) as (r & Hr & _). exists r. split; [exact Hr|].
  destruct (String.eqb_spec v "") as [->|_].
  - vm_compute in Hr. now inversion Hr.
  - now rewrite Hr.
Qed.

Lemma ascii_text_one_byte_per_character (v : string) :
  GoString.all_bytes GoString.is_ascii_byte v = true ->
  GoString.RuneCountInString v = GoString.len v.
Proof.
  unfold GoString.len.
  induction v as [|c v IH]; simpl GoString.all_bytes; intros H;
    [reflexivity|].
  apply andb_true_iff in H as [Hc Hv].
  cbn [GoString.RuneCountInString String.length]. rewrite (IH Hv).
  unfold GoString.is_continuation_byte, GoString.is_ascii_byte in *.
  apply N.ltb_lt in Hc.
  destruct (N.leb_spec 128 (N_of_ascii c)); simpl; lia.
Qed.

(** What the code computes for a sensitive key and a text value: the
    length-banded rule on [len(v)], the number of bytes, with the first and
    last one or two bytes kept.  On text of single-byte characters the
    number of bytes is the number of characters, and the six examples of
    the documentation hold for the key "password". *)
Theorem mask_text_follows_the_bands_of_len
    (keys : gmap string bool) (k v : string) :
  isSensitiveKey keys k = true ->
  (exists r, maskSensitiveData keys k (VString v) = Some (VString r)
             /\ banded_rule v r)
  /\ (GoString.all_bytes GoString.is_ascii_byte v = true ->
      GoString.RuneCountInString v = GoString.len v)
  /\ maskSensitiveData sensitiveKeys "password" (VString "")
     = Some (VString "")
  /\ maskSensitiveData sensitiveKeys "password" (VString "a")
     = Some (VString "***")
  /\ maskSensitiveData sensitiveKeys "password" (VString "ab")
     = Some (VString "***")
  /\ maskSensitiveData sensitiveKeys "password" (VString "abc")
     = Some (VString "a***c")
  /\ maskSensitiveData sensitiveKeys "password" (VString "abcd")
     = Some (VString "a***d")
  /\ maskSensitiveData sensitiveKeys "password" (VString "abcdef")
     = Some (VString "ab***ef").
Proof.
  intros Hk. split; [|split; [apply ascii_text_one_byte_per_character|]].
  - destruct (maskSensitiveData_text keys k v Hk) as (r & Hr & Hm).
    exists r. split; [exact Hm|].
    destruct (maskString_spec v) as (r' & Hr' & Hb & _). congruence.
  - repeat split; vm_compute; reflexivity.
Qed.

(** C3.  On a key that is not sensitive the masker returns the value it
    was given, of whatever dynamic type. *)
Theorem mask_is_the_identity_on_other_keys
    (keys : gmap string bool) (k : string) (v : dyn) :
  isSensitiveKey keys k = false ->
  maskSensitiveData keys k v = Some v.
Proof. intros Hk. unfold maskSensitiveData. now rewrite Hk. Qed.


(** C7.  The masker returns for every key and every value (no slice
    expression of [maskString] is out of range), and for a sensitive key
    and a value that is neither a string nor a byte sequence it returns
    the text "***MASKED***". *)
Theorem mask_is_total_and_other_types_get_the_sentinel
    (keys : gmap string bool) (k : string) (v : dyn) :
  (exists r, maskSensitiveData keys k v = Some r)
  /\ (isSensitiveKey keys k = true ->
      is_text v = false -> is_bytes v = false ->
      maskSensitiveData keys k v = Some (VString "***MASKED***")).
Proof.
  split; [apply maskSensitiveData_returns|].
  intros Hk Ht Hb. unfold maskSensitiveData. rewrite Hk.
  destruct v; simpl in *; congruence.
Qed.

(** C10.  [maskString] returns for every string, and the length of its
    result is 0 for the empty string, 3 for length 1 or 2, 5 for length 3
    or 4 and 7 from length 5 on; it is never more than 7. *)
Theorem maskString_length_depends_on_the_band_only (v : string) :
  exists r, maskString v = Some r
            /\ GoString.len r = banded_length (GoString.len v)
            /\ (GoString.len r <= 7)%Z.
Proof.
  destruct (maskString_spec v) as (r & Hr & _ & Hl).
  exists r. split; [exact Hr|]. split; [exact Hl|].
  rewrite Hl. unfold banded_length.
  destruct (_ =? _)%Z; [lia|].
  destruct (_ <=? 2)%Z; [lia|]. destruct (_ <=? 4)%Z; lia.
Qed.

(** ** The registry of sensitive keys *)

Lemma lower_byte_idem (c : ascii) :
  GoString.lower_byte (GoString.lower_byte c) = GoString.lower_byte c.
Proof. destruct c as [[] [] [] [] [] [] [] []]; reflexivity. Qed.

Lemma lower_byte_ascii (c : ascii) :
  GoString.is_ascii_byte (GoString.lower_byte c) = GoString.is_ascii_byte c.
Proof. destruct c as [[] [] [] [] [] [] [] []]; reflexivity. Qed.

Lemma map_lower_ascii (s : string) :
  GoString.all_bytes GoString.is_ascii_byte
    (GoString.map_bytes GoString.lower_byte s)
  = GoString.all_bytes GoString.is_ascii_byte s.
Proof.
  induction s as [|c s IH]; simpl; [reflexivity|].
  now rewrite lower_byte_ascii, IH.
Qed.

Lemma map_lower_idem (s : string) :
  GoString.map_bytes GoString.lower_byte
    (GoString.map_bytes GoString.lower_byte s)
  = GoString.map_bytes GoString.lower_byte s.
Proof.
  induction s as [|c s IH]; simpl; [reflexivity|].
  now rewrite lower_byte_idem, IH.
Qed.

(** What the package relies on of the Unicode tables: the lower-case form
    of a text is in lower case. *)
Hypothesis unicode_ToLower_lowercase :
  forall s, GoString.all_bytes GoString.is_ascii_byte s = false ->
            ToLower (unicode_ToLower s) = unicode_ToLower s.

Lemma ToLower_idem (s : string) : ToLower (ToLower s) = ToLower s.
Proof.
  unfold ToLower at 2 3.
  destruct (GoString.all_bytes GoString.is_ascii_byte s) eqn:Ha.
  - unfold ToLower. now rewrite map_lower_ascii, Ha, map_lower_idem.
  - now apply unicode_ToLower_lowercase.
Qed.

Lemma builtin_keys_lowercase (key : string) :
  is_Some (sensitiveKeys !! key) -> is_lowercase key.
Proof.
  intros [b Hb]. unfold sensitiveKeys in Hb.
  apply elem_of_list_to_map_2 in Hb.
  repeat (apply elem_of_cons in Hb as [Hb|Hb];
          [inversion Hb; subst; reflexivity|]).
  now apply elem_of_nil in Hb.
Qed.

Lemma registry_step_lowercase (keys : gmap string bool) (c : RegistryCall) :
  (forall key, is_Some (keys !! key) -> is_lowercase key) ->
  forall key, is_Some (registry_step keys c !! key) -> is_lowercase key.
Proof.
  intros Hinv key. destruct c as [k|k]; simpl;
    unfold AddSensitiveKey, RemoveSensitiveKey.
  - rewrite lookup_insert_is_Some. intros [<-|[_ H]]; [|now apply Hinv].
    apply ToLower_idem.
  - rewrite lookup_delete_is_Some. intros [_ H]. now apply Hinv.
Qed.

Lemma registry_lowercase (calls : list RegistryCall) (key : string) :
  is_Some (registry_after calls !! key) -> is_lowercase key.
Proof.
  unfold registry_after. revert key.
  generalize builtin_keys_lowercase. generalize sensitiveKeys as keys.
  induction calls as [|c calls IH]; intros keys Hinv key; simpl.
  - apply Hinv.
  - apply IH. now apply registry_step_lowercase.
Qed.

(** C9.  For a key [k] and a case variant [k'] of it: after
    [AddSensitiveKey(k)] the key [k'] is sensitive, after
    [RemoveSensitiveKey(k)] it is not; adding or removing again changes
    nothing, nor does removing a key that is absent; and after any
    sequence of calls every key stored in the registry is in lower
    case. *)
Theorem registry_is_case_insensitive_and_idempotent
    (keys : gmap string bool) (k k' : string) :
  case_variant k k' ->
  isSensitiveKey (AddSensitiveKey k keys) k' = true
  /\ isSensitiveKey (RemoveSensitiveKey k keys) k' = false
  /\ AddSensitiveKey k' (AddSensitiveKey k keys) = AddSensitiveKey k keys
  /\ RemoveSensitiveKey k' (RemoveSensitiveKey k keys)
     = RemoveSensitiveKey k keys
  /\ (keys !! ToLower k = None -> RemoveSensitiveKey k' keys = keys)
  /\ (forall calls key,
         is_Some (registry_after calls !! key) -> is_lowercase key).
Proof.
  unfold case_variant, isSensitiveKey, AddSensitiveKey, RemoveSensitiveKey.
  intros ->. repeat split.
  - now rewrite lookup_insert_eq.
  - now rewrite lookup_delete_eq.
  - apply insert_insert_eq.
  - apply delete_delete_eq.
  - apply delete_id.
  - apply registry_lowercase.
Qed.

(** ** Slices and [append] *)

Lemma elems_length (st : State) (s : Slice) :
  slice_ok st s -> length (elems st s) = s_len s.
Proof.
  intros (a & Ha & Hcap & Hlen). unfold elems. rewrite Ha. simpl.
  rewrite length_take_le; lia.
Qed.

Lemma slice_ok_in_heap (st : State) (s : Slice) :
  slice_ok st s -> (s_array s < length (heap_arrays st))%nat.
Proof. intros (a & Ha & _). apply lookup_lt_is_Some. eauto. Qed.

(** [append] returns the slice of the old elements followed by the new
    ones.  It may write into the backing array of [s], but only behind
    the first [len(s)] elements: every slice on another array, and every
    slice on the same array that is no longer than [s], reads as
    before. *)
Lemma append_spec (s : Slice) (xs : list Field) (st : State) :
  slice_ok st s ->
  exists s' h',
    append s xs st = Ret s' (with_arrays h' st)
    /\ slice_ok (with_arrays h' st) s'
    /\ elems (with_arrays h' st) s' = (elems st s ++ xs)%list
    /\ (s_array s <= s_array s')%nat
    /\ (forall t, slice_ok st t ->
                  s_array t <> s_array s \/ (s_len t <= s_len s)%nat ->
                  slice_ok (with_arrays h' st) t
                  /\ elems (with_arrays h' st) t = elems st t).
Proof.
  intros Hok. pose proof (elems_length st s Hok) as Hel.
  pose proof (slice_ok_in_heap st s Hok) as Hin.
  destruct Hok as (a & Ha & Hcap & Hlen).
  unfold append.
  destruct (Nat.leb_spec (s_len s + length xs) (s_cap s)) as [Hroom|Hgrow].
  - (* room in the backing array *)
    set (a' := (take (s_len s) a ++ xs ++ drop (s_len s + length xs) a)%list).
    assert (Ha' : alter (fun a => (take (s_len s) a ++ xs
                                     ++ drop (s_len s + length xs) a)%list)
                    (s_array s) (heap_arrays st) !! s_array s = Some a')
      by (rewrite list_lookup_alter_eq, Ha; reflexivity).
    assert (Hla' : length a' = length a).
    { unfold a'. rewrite !length_app, length_take_le, length_drop; lia. }
    eexists _, _. split; [reflexivity|].
    split; [|split; [|split; [simpl; lia|]]].
    + exists a'. simpl. split; [exact Ha'|]. lia.
    + unfold elems at 1. simpl. rewrite Ha'. simpl.
      unfold elems. rewrite Ha. simpl. unfold a'.
      rewrite app_assoc. apply take_app_length'.
      rewrite length_app, length_take_le; lia.
    + intros t (b & Hb & Hbcap & Hblen) Ht.
      destruct (decide (s_array t = s_array s)) as [E|NE].
      * destruct Ht as [Ht|Ht]; [congruence|].
        rewrite E in Hb. assert (b = a) by congruence. subst b.
        split.
        { exists a'. simpl. rewrite E. split; [exact Ha'|]. lia. }
        unfold elems. simpl. rewrite E, Ha', Ha. simpl. unfold a'.
        rewrite take_app_le by (rewrite length_take_le; lia).
        rewrite take_take. f_equal. lia.
      * assert (Hb' : alter (fun a => (take (s_len s) a ++ xs
                                         ++ drop (s_len s + length xs) a)%list)
                        (s_array s) (heap_arrays st) !! s_array t = Some b)
          by (rewrite list_lookup_alter_ne; [exact Hb | congruence]).
        split.
        { exists b. simpl. split; [exact Hb'|]. lia. }
        unfold elems. simpl. now rewrite Hb', Hb.
  - (* a new, larger backing array *)
    set (c := Nat.max (s_len s + length xs)
                      (growslice (s_cap s) (s_len s + length xs))).
    set (a' := (elems st s ++ xs
                ++ replicate (c - (s_len s + length xs)) zero_Field)%list).
    assert (Ha' : (heap_arrays st ++ [a'])%list !! length (heap_arrays st)
                  = Some a') by (now apply list_lookup_middle).
    eexists _, _. split; [reflexivity|].
    split; [|split; [|split; [simpl; lia|]]].
    + exists a'. simpl. split; [exact Ha'|].
      unfold a'. rewrite !length_app, length_replicate, Hel. lia.
    + unfold elems at 1. simpl. rewrite Ha'. simpl. unfold a'.
      rewrite app_assoc. apply take_app_length'.
      rewrite length_app, Hel. lia.
    + intros t (b & Hb & Hbcap & Hblen) _.
      assert (Hb' : (heap_arrays st ++ [a'])%list !! s_array t = Some b).
      { rewrite lookup_app_l; [exact Hb|]. apply lookup_lt_is_Some. eauto. }
      split.
      { exists b. simpl. split; [exact Hb'|]. lia. }
      unfold elems. simpl. now rewrite Hb', Hb.
Qed.

(** ** The leveled methods *)

Lemma convertFields_loop_spec (fs : list Field) (acc : list ZapField)
    (st : State) :
  exists zs,
    convertFields_loop fs acc st = Ret (acc ++ zs)%list st
    /\ Forall2 (masked_as (var_sensitiveKeys st)) fs zs.
Proof.
  revert acc; induction fs as [|f fs IH]; intros acc.
  - exists []. simpl. rewrite app_nil_r. split; [reflexivity | constructor].
  - destruct (maskSensitiveData_returns (var_sensitiveKeys st) (Key f) (Value f))
      as [v Hv].
    destruct (IH (acc ++ [zap_Any (Key f) v])%list) as (zs & Hzs & Hall).
    exists (zap_Any (Key f) v :: zs). split.
    + simpl. unfold mbind, M_bind, call_maskSensitiveData. rewrite Hv.
      rewrite Hzs. now rewrite <- app_assoc.
    + constructor; [|exact Hall]. split; [reflexivity | exact Hv].
Qed.

(** What a leveled method does on a usable logger: one entry reaches the
    engine of the logger, at the severity of the method, with the given
    message and one engine field for each sticky field and then each
    call-site field; slices that could not be written by the [append] of
    the method read as before. *)
Lemma log_method_spec (m : LevelMethod) (st : State) (p : nat) (L : Logger)
    (msg : string) (fs : list Field) :
  heap_loggers st !! p = Some L ->
  slice_ok st (fields L) ->
  is_Some (heap_zap st !! zapLogger L) ->
  exists h' zfs,
    let st' :=
      set_calls (fun c => (c ++ [{| entry_engine := zapLogger L;
                                    entry_level := method_level m;
                                    entry_msg := msg;
                                    entry_fields := zfs |}])%list)
                (with_arrays h' st) in
    call_method m (Some p) msg fs st = finish m st'
    /\ Forall2 (masked_as (var_sensitiveKeys st))
               (elems st (fields L) ++ fs)%list zfs
    /\ (forall t, slice_ok st t ->
                  s_array t <> s_array (fields L)
                  \/ (s_len t <= s_len (fields L))%nat ->
                  slice_ok st' t /\ elems st' t = elems st t).
Proof.
  intros HL Hok [z Hz].
  destruct (append_spec (fields L) fs st Hok)
    as (s' & h' & Happ & Hok' & Hel & _ & Hframe).
  destruct (convertFields_loop_spec (elems st (fields L) ++ fs)%list []
              (with_arrays h' st)) as (zfs & Hloop & Hall).
  exists h', zfs. split; [|split; [exact Hall | exact Hframe]].
  destruct m; cbn [call_method finish method_level];
    unfold Logger_Trace, Logger_Debug, Logger_Info, Logger_Warn,
      Logger_Error, Logger_Fatal, zap_Fatal, convertFields, range,
      mbind, M_bind, deref;
    rewrite HL, Happ, Hel, Hloop; unfold zap_log;
    cbn [heap_zap with_arrays set_arrays]; rewrite Hz; reflexivity.
Qed.

(** C1.  On a usable logger every leveled method hands the engine one
    entry whose fields are the sticky fields of the logger followed by
    the call-site fields, one engine field per field and in that order
    (repeated keys stay), each with its key and with its value passed
    through [maskSensitiveData]; the fatal method then exits. *)
Theorem leveled_methods_emit_sticky_then_call_fields_masked
    (m : LevelMethod) (st : State) (p : nat) (L : Logger)
    (msg : string) (fs : list Field) :
  heap_loggers st !! p = Some L ->
  slice_ok st (fields L) ->
  is_Some (heap_zap st !! zapLogger L) ->
  exists st' zfs,
    call_method m (Some p) msg fs st = finish m st'
    /\ zap_calls st'
       = (zap_calls st ++ [{| entry_engine := zapLogger L;
                              entry_level := method_level m;
                              entry_msg := msg;
                              entry_fields := zfs |}])%list
    /\ Forall2 (masked_as (var_sensitiveKeys st))
               (elems st (fields L) ++ fs)%list zfs.
Proof.
  intros HL Hok Hz.
  destruct (log_method_spec m st p L msg fs HL Hok Hz)
    as (h' & zfs & Hcall & Hall & _).
  eexists _, zfs. split; [exact Hcall|]. split; [reflexivity | exact Hall].
Qed.

(** C4.  A formatted method is the plain method of the same level on the
    message [Sprintf(format, args)] and no call-site field: on a usable
    logger the engine receives that message as it is and the masked
    sticky fields, and nothing else; a text passed as the value of a
    field with a sensitive key is passed through [maskString]. *)
Theorem formatted_methods_are_plain_methods_on_the_formatted_message
    (m : LevelMethod) (st : State) (p : nat) (L : Logger)
    (format : string) (args : list dyn) :
  heap_loggers st !! p = Some L ->
  slice_ok st (fields L) ->
  is_Some (heap_zap st !! zapLogger L) ->
  call_methodf m (Some p) format args st
  = call_method m (Some p) (Sprintf format args) [] st
  /\ (exists st' zfs,
        call_methodf m (Some p) format args st = finish m st'
        /\ zap_calls st'
           = (zap_calls st ++ [{| entry_engine := zapLogger L;
                                  entry_level := method_level m;
                                  entry_msg := Sprintf format args;
                                  entry_fields := zfs |}])%list
        /\ Forall2 (masked_as (var_sensitiveKeys st))
                   (elems st (fields L)) zfs)
  /\ (forall key v,
        isSensitiveKey (var_sensitiveKeys st) key = true ->
        exists r, maskString v = Some r
                  /\ maskSensitiveData (var_sensitiveKeys st) key (VString v)
                     = Some (VString r)).
Proof.
  intros HL Hok Hz.
  assert (E : call_methodf m (Some p) format args st
              = call_method m (Some p) (Sprintf format args) [] st)
    by (destruct m; reflexivity).
  split; [exact E|]. split.
  - rewrite E.
    destruct (log_method_spec m st p L (Sprintf format args) [] HL Hok Hz)
      as (h' & zfs & Hcall & Hall & _).
    rewrite app_nil_r in Hall.
    eexists _, zfs. split; [exact Hcall|]. split; [reflexivity | exact Hall].
  - intros key v Hk. now apply maskSensitiveData_text.
Qed.

(** ** [With] *)

(** [With] returns a new logger on a new backing array; whatever could be
    read from the heap before reads the same afterwards. *)
Lemma With_spec (st : State) (p : nat) (L : Logger) (fs : list Field) :
  heap_loggers st !! p = Some L ->
  slice_ok st (fields L) ->
  exists h' C,
    let st' := set_loggers (fun l => (l ++ [C])%list) (with_arrays h' st) in
    Logger_With (Some p) fs st = Ret (Some (length (heap_loggers st))) st'
    /\ zapLogger C = zapLogger L
    /\ slice_ok st' (fields C)
    /\ elems st' (fields C) = (elems st (fields L) ++ fs)%list
    /\ (forall t, slice_ok st t ->
                  slice_ok st' t /\ elems st' t = elems st t).
Proof.
  intros HL Hok.
  set (n := (s_len (fields L) + length fs)%nat).
  set (s0 := {| s_array := length (heap_arrays st); s_len := 0; s_cap := n |}).
  set (st0 := set_arrays (fun h => (h ++ [replicate n zero_Field])%list) st).
  assert (Hmake : forall t, slice_ok st t ->
                    slice_ok st0 t /\ elems st0 t = elems st t).
  { intros t (b & Hb & Hbcap & Hblen).
    assert (Hb' : heap_arrays st0 !! s_array t = Some b).
    { simpl. rewrite lookup_app_l; [exact Hb|]. apply lookup_lt_is_Some. eauto. }
    split; [exists b; auto|]. unfold elems. now rewrite Hb', Hb. }
  assert (Hok0 : slice_ok st0 s0).
  { exists (replicate n zero_Field). simpl.
    split; [now apply list_lookup_middle|]. rewrite length_replicate. lia. }
  assert (Hel0 : elems st0 s0 = []) by reflexivity.
  destruct (append_spec s0 (elems st (fields L)) st0 Hok0)
    as (s1 & h1 & Happ1 & Hok1 & Hel1 & Hle1 & Hframe1).
  destruct (append_spec s1 fs (with_arrays h1 st0) Hok1)
    as (s2 & h2 & Happ2 & Hok2 & Hel2 & Hle2 & Hframe2).
  exists h2, {| zapLogger := zapLogger L; fields := s2 |}.
  assert (Hold : forall t, slice_ok st t ->
                   slice_ok (with_arrays h2 st) t
                   /\ elems (with_arrays h2 st) t = elems st t).
  { intros t Ht. pose proof (slice_ok_in_heap st t Ht) as Hin.
    destruct (Hmake t Ht) as [Ht0 Et0].
    destruct (Hframe1 t Ht0) as [Ht1 Et1]; [left; simpl; lia|].
    destruct (Hframe2 t Ht1) as [Ht2 Et2]; [left; simpl in Hle1; lia|].
    split; [exact Ht2|]. change (with_arrays h2 st)
      with (with_arrays h2 (with_arrays h1 st0)). congruence. }
  split; [|split; [reflexivity | split; [exact Hok2 | split; [|exact Hold]]]].
  - unfold Logger_With, range, mbind, M_bind, deref, make_slice, new_Logger.
    rewrite HL. fold n. fold st0. fold s0.
    rewrite (proj2 (Hmake _ Hok)), Happ1, Happ2. reflexivity.
  - change (elems (with_arrays h2 (with_arrays h1 st0)) s2
            = (elems st (fields L) ++ fs)%list).
    rewrite Hel2, Hel1, Hel0. reflexivity.
Qed.

(** C8.  [With] on a usable logger returns a new logger with the engine
    of the parent and, as sticky fields, those of the parent followed by
    the given ones.  The parent struct and its sticky fields are as
    before, nothing is logged, and a leveled method on the parent
    afterwards emits the parent's sticky fields and the call-site fields
    only. *)
Theorem With_extends_a_copy_and_leaves_the_parent
    (st : State) (p : nat) (L : Logger) (fs : list Field) :
  heap_loggers st !! p = Some L ->
  slice_ok st (fields L) ->
  is_Some (heap_zap st !! zapLogger L) ->
  exists st' c C,
    Logger_With (Some p) fs st = Ret (Some c) st'
    /\ c <> p
    /\ heap_loggers st' !! c = Some C
    /\ zapLogger C = zapLogger L
    /\ elems st' (fields C) = (elems st (fields L) ++ fs)%list
    /\ heap_loggers st' !! p = Some L
    /\ elems st' (fields L) = elems st (fields L)
    /\ zap_calls st' = zap_calls st
    /\ (forall m msg fs', exists st'' zfs,
          call_method m (Some p) msg fs' st' = finish m st''
          /\ zap_calls st''
             = (zap_calls st' ++ [{| entry_engine := zapLogger L;
                                     entry_level := method_level m;
                                     entry_msg := msg;
                                     entry_fields := zfs |}])%list
          /\ Forall2 (masked_as (var_sensitiveKeys st))
                     (elems st (fields L) ++ fs')%list zfs).
Proof.
  intros HL Hok Hz.
  destruct (With_spec st p L fs HL Hok)
    as (h' & C & Hwith & Hzap & HokC & HelC & Hold).
  cbv zeta in *.
  set (st' := set_loggers (fun l => (l ++ [C])%list) (with_arrays h' st)) in *.
  assert (Hp : (p < length (heap_loggers st))%nat)
    by (apply lookup_lt_is_Some; eauto).
  assert (HL' : heap_loggers st' !! p = Some L)
    by (simpl; rewrite lookup_app_l; assumption).
  destruct (Hold _ Hok) as [Hok' Hel'].
  exists st', (length (heap_loggers st)), C.
  split; [exact Hwith|]. split; [lia|].
  split; [simpl; now apply list_lookup_middle|].
  split; [exact Hzap|]. split; [exact HelC|]. split; [exact HL'|].
  split; [exact Hel'|]. split; [reflexivity|].
  intros m msg fs'.
  destruct (log_method_spec m st' p L msg fs' HL' Hok' Hz)
    as (h'' & zfs & Hcall & Hall & _).
  rewrite Hel' in Hall.
  eexists _, zfs. split; [exact Hcall|]. split; [reflexivity | exact Hall].
Qed.

(** ** [New] and [Init] *)

(** [New] on a configuration returns: either a new logger and no error,
    or no logger and an error, the state then being as before. *)
Lemma New_returns (c : Config) (st : State) :
  exists p e st',
    New (Some c) st = Ret (p, e) st'
    /\ var_once st' = var_once st
    /\ ((e = None /\ exists q, p = Some q /\ is_Some (heap_loggers st' !! q))
        \/ (exists msg, e = Some msg /\ p = None /\ st' = st)).
Proof.
  assert (Hbuild : forall z,
    exists p e st',
      (z0 ← zap_New z; empty ← make_slice 0;
       q ← new_Logger {| zapLogger := z0; fields := empty |};
       mret (q, @None string)) st = Ret (p, e) st'
      /\ var_once st' = var_once st
      /\ ((e = None /\ exists q, p = Some q /\ is_Some (heap_loggers st' !! q))
          \/ (exists msg, e = Some msg /\ p = None /\ st' = st))).
  { intros z. eexists _, _, _. split; [reflexivity|]. split; [reflexivity|].
    left. split; [reflexivity|]. eexists. split; [reflexivity|].
    simpl. rewrite list_lookup_middle; eauto. }
  unfold New.
  destruct (Development c); [apply Hbuild|].
  destruct (negb (String.eqb (OutputPath c) "")); [|apply Hbuild].
  destruct (OpenFile (OutputPath c)) as [err|]; [|apply Hbuild].
  eexists _, _, _. split; [reflexivity|]. split; [reflexivity|].
  right. eauto.
Qed.

(** C5 (as amended).  The first call of [Init] constructs a logger from
    its configuration with [New], stores what [New] returned in
    [defaultLogger] (no logger when [New] failed) and returns the error
    of [New].  Every later call, whatever its argument, changes nothing,
    so the first logger stays in effect, and returns no error, also when
    the first call had failed. *)
Theorem Init_is_a_one_shot_latch_returning_nil_afterwards
    (st : State) (c : Config) :
  var_once st = false ->
  exists p e st0,
    New (Some c) (set_once true st) = Ret (p, e) st0
    /\ Init (Some c) st = Ret e (set_defaultLogger p st0)
    /\ var_once (set_defaultLogger p st0) = true
    /\ (e = None ->
        exists q, p = Some q
                  /\ is_Some (heap_loggers (set_defaultLogger p st0) !! q))
    /\ (e <> None -> p = None)
    /\ (forall c2 : option Config,
          Init c2 (set_defaultLogger p st0)
          = Ret None (set_defaultLogger p st0)).
Proof.
  intros Honce.
  destruct (New_returns c (set_once true st))
    as (p & e & st0 & HNew & Ho & Hcases).
  exists p, e, st0. split; [exact HNew|].
  split; [|split; [exact Ho|split; [|split]]].
  - unfold Init, get, modify, mbind, M_bind. rewrite Honce.
    unfold mret, M_ret. rewrite HNew. reflexivity.
  - intros ->. destruct Hcases as [[_ Hq]|(msg & He & _)]; [exact Hq | discriminate].
  - intros He. destruct Hcases as [[He' _]|(msg & _ & Hp & _)]; [contradiction | exact Hp].
  - intros c2. unfold Init, get, mbind, M_bind.
    change (var_once (set_defaultLogger p st0)) with (var_once st0).
    rewrite Ho. reflexivity.
Qed.

(** ** Further properties of the masker *)

Lemma append_assoc_string (a b c : string) : (a ++ b) ++ c = a ++ b ++ c.
Proof.
  induction a as [|x a IH]; [reflexivity|].
  rewrite !append_cons. now rewrite IH.
Qed.

Lemma take_bytes_app (a r : string) :
  GoString.take_bytes (String.length a) (a ++ r) = a.
Proof.
  induction a as [|x a IH]; [reflexivity|].
  rewrite append_cons. simpl. f_equal. exact IH.
Qed.

Lemma drop_bytes_app (a r : string) :
  GoString.drop_bytes (String.length a) (a ++ r) = r.
Proof.
  induction a as [|x a IH]; [reflexivity|].
  rewrite append_cons. simpl. exact IH.
Qed.

Lemma slice_to_app (a r : string) :
  GoString.slice_to (a ++ r) (GoString.len a) = Some a.
Proof.
  destruct (slice_to_prefix (a ++ r) (GoString.len a)) as [E _].
  { rewrite len_append. unfold GoString.len. lia. }
  rewrite E. unfold GoString.len. rewrite Nat2Z.id. now rewrite take_bytes_app.
Qed.

Lemma slice_from_app (r b : string) :
  GoString.slice_from (r ++ b) (GoString.len (r ++ b) - GoString.len b)
  = Some b.
Proof.
  destruct (slice_from_suffix (r ++ b)
              (GoString.len (r ++ b) - GoString.len b)) as [E _].
  { rewrite len_append. unfold GoString.len. lia. }
  rewrite E. rewrite len_append.
  replace (GoString.len r + GoString.len b - GoString.len b)%Z
    with (GoString.len r) by lia.
  unfold GoString.len. rewrite Nat2Z.id. now rewrite drop_bytes_app.
Qed.

Lemma maskString_of_ends (a mid b : string) :
  (GoString.len a = 2 /\ GoString.len b = 2 /\ 1 <= GoString.len mid)%Z
  \/ (GoString.len a = 1 /\ GoString.len b = 1
      /\ 1 <= GoString.len mid <= 2)%Z ->
  maskString (a ++ mid ++ b) = Some (a ++ "***" ++ b).
Proof.
  intros H. set (v := a ++ mid ++ b).
  assert (Hv : (GoString.len v
                = GoString.len a + GoString.len mid + GoString.len b)%Z)
    by (unfold v; rewrite !len_append; lia).
  assert (Ea : GoString.slice_to v (GoString.len a) = Some a)
    by apply slice_to_app.
  assert (Eb : GoString.slice_from v (GoString.len v - GoString.len b)
               = Some b).
  { unfold v. rewrite <- append_assoc_string. apply slice_from_app. }
  unfold maskString.
  destruct (Z.eqb_spec (GoString.len v) 0) as [H0|_]; [lia|].
  destruct (Z.leb_spec (GoString.len v) 2) as [H2|_]; [lia|].
  destruct H as [(Ha & Hb & Hm)|(Ha & Hb & Hm)]; rewrite Ha in Ea;
    rewrite Hb in Eb.
  - destruct (Z.leb_spec (GoString.len v) 4) as [H4|_]; [lia|].
    now rewrite Ea, Eb.
  - destruct (Z.leb_spec (GoString.len v) 4) as [_|H4]; [|lia].
    now rewrite Ea, Eb.
Qed.

(** X1.  Of a value of five bytes or more [maskString] keeps the first two
    and the last two bytes, of a value of three or four bytes the first and
    the last byte: whatever lies between them is not in the result, so two
    values with the same ends in the same band are masked alike. *)
Theorem maskString_keeps_only_the_ends (a mid mid' b : string) :
  (GoString.len a = 2 /\ GoString.len b = 2
   /\ 1 <= GoString.len mid /\ 1 <= GoString.len mid')%Z
  \/ (GoString.len a = 1 /\ GoString.len b = 1
      /\ 1 <= GoString.len mid <= 2 /\ 1 <= GoString.len mid' <= 2)%Z ->
  maskString (a ++ mid ++ b) = Some (a ++ "***" ++ b)
  /\ maskString (a ++ mid' ++ b) = maskString (a ++ mid ++ b).
Proof.
  intros H.
  assert (H1 : maskString (a ++ mid ++ b) = Some (a ++ "***" ++ b))
    by (apply maskString_of_ends;
        destruct H as [(? & ? & ? & ?)|(? & ? & ? & ?)]; [left|right]; lia).
  assert (H2 : maskString (a ++ mid' ++ b) = Some (a ++ "***" ++ b))
    by (apply maskString_of_ends;
        destruct H as [(? & ? & ? & ?)|(? & ? & ? & ?)]; [left|right]; lia).
  split; congruence.
Qed.

(** X2.  The values that [maskString] returns as they are: the empty one
    and those of seven bytes with "***" in the middle.  So masking the
    result of masking a value of five bytes or more changes nothing. *)
Theorem maskString_fixed_points (v : string) :
  (maskString v = Some v <->
   v = "" \/ exists a b, GoString.len a = 2%Z /\ GoString.len b = 2%Z
                         /\ v = a ++ "***" ++ b)
  /\ (forall r, (5 <= GoString.len v)%Z -> maskString v = Some r ->
                maskString r = Some r).
Proof.
  assert (Hfix : forall a b, GoString.len a = 2%Z -> GoString.len b = 2%Z ->
                   maskString (a ++ "***" ++ b) = Some (a ++ "***" ++ b)).
  { intros a b Ha Hb. apply maskString_of_ends.
    left. repeat split; try assumption. vm_compute. discriminate. }
  assert (Hlong : forall w r, (5 <= GoString.len w)%Z -> maskString w = Some r ->
                    exists a b, GoString.len a = 2%Z /\ GoString.len b = 2%Z
                                /\ r = a ++ "***" ++ b).
  { intros w r Hw Hr. destruct (maskString_spec w) as (r' & Hr' & Hrule & _).
    assert (r' = r) by congruence. subst r'.
    destruct Hrule as [[H _]|[[H _]|[[H _]|[_ (a & mid & b & _ & Ha & Hb & E)]]]];
      try lia.
    exists a, b. auto. }
  split; [split|].
  - intros Hv. destruct (maskString_spec v) as (r & Hr & _ & Hlen).
    assert (r = v) by congruence. subst r.
    unfold banded_length in Hlen.
    destruct (Z.eqb_spec (GoString.len v) 0) as [H0|H0].
    { left. destruct v; [reflexivity|]. unfold GoString.len in H0.
      simpl in H0. lia. }
    right.
    destruct (Z.leb_spec (GoString.len v) 2); [lia|].
    destruct (Z.leb_spec (GoString.len v) 4); [lia|].
    apply (Hlong v v); [lia | exact Hv].
  - intros [->|(a & b & Ha & Hb & ->)]; [reflexivity | now apply Hfix].
  - intros r Hv Hr. destruct (Hlong v r Hv Hr) as (a & b & Ha & Hb & ->).
    now apply Hfix.
Qed.

(** X3.  The masker does not distinguish the letter case of the key: two
    keys with the same lower-case form give the same result on every
    value. *)
Theorem mask_ignores_the_case_of_the_key
    (keys : gmap string bool) (k k' : string) (v : dyn) :
  case_variant k k' ->
  maskSensitiveData keys k' v = maskSensitiveData keys k v.
Proof.
  unfold case_variant, maskSensitiveData, isSensitiveKey. now intros ->.
Qed.

(** X4.  A field made by [Int], [Int64], [Float64], [Bool] or [ErrorField]
    is emitted either with its own value (key not sensitive) or with the
    text "***MASKED***" (key sensitive), never with a part of its value;
    this holds for [ErrorField(nil)] as well.  The key of an [ErrorField]
    is "error", which the initial registry does not hold. *)
Theorem typed_fields_are_kept_or_replaced_whole
    (keys : gmap string bool) (f : Field) :
  (exists key n, f = Field_Int key n)
  \/ (exists key n, f = Field_Int64 key n)
  \/ (exists key bits, f = Field_Float64 key bits)
  \/ (exists key b, f = Field_Bool key b)
  \/ (exists err, f = ErrorField err) ->
  maskSensitiveData keys (Key f) (Value f)
  = Some (if isSensitiveKey keys (Key f)
          then VString "***MASKED***" else Value f)
  /\ (forall err, isSensitiveKey sensitiveKeys (Key (ErrorField err)) = false).
Proof.
  intros H. split; [|intros err; vm_compute; reflexivity].
  unfold maskSensitiveData.
  destruct H as [(key & n & ->)|[(key & n & ->)|[(key & n & ->)
                |[(key & n & ->)|(err & ->)]]]];
    simpl; destruct (isSensitiveKey keys _); try reflexivity.
  now destruct err.
Qed.

(** ** Further properties of the registry *)

Lemma builtin_values_true (key : string) (b : bool) :
  sensitiveKeys !! key = Some b -> b = true /\ In key builtin_names.
Proof.
  intros Hb. unfold sensitiveKeys in Hb.
  apply elem_of_list_to_map_2 in Hb.
  repeat (apply elem_of_cons in Hb as [Hb|Hb];
          [inversion Hb; subst; split; [reflexivity|simpl; tauto]|]).
  now apply elem_of_nil in Hb.
Qed.

(** X5.  At the start of the process a key is sensitive exactly when its
    lower-case form is one of the nineteen built-in names. *)
Theorem initially_sensitive_iff_builtin (k : string) :
  isSensitiveKey sensitiveKeys k = true <-> In (ToLower k) builtin_names.
Proof.
  unfold isSensitiveKey. split.
  - destruct (sensitiveKeys !! ToLower k) as [b|] eqn:E; [|discriminate].
    intros _. now apply builtin_values_true in E.
  - intros H. unfold builtin_names in H. simpl in H.
    repeat (destruct H as [<-|H]; [vm_compute; reflexivity|]).
    contradiction.
Qed.

Lemma registry_values_true (calls : list RegistryCall) (key : string)
    (b : bool) :
  registry_after calls !! key = Some b -> b = true.
Proof.
  unfold registry_after. revert key b.
  assert (H0 : forall key b, sensitiveKeys !! key = Some b -> b = true)
    by (intros key b H; now apply builtin_values_true in H).
  revert H0. generalize sensitiveKeys as keys.
  induction calls as [|c calls IH]; intros keys Hinv key b; simpl.
  - apply Hinv.
  - apply IH. clear key b. intros key b.
    destruct c as [k|k]; simpl; unfold AddSensitiveKey, RemoveSensitiveKey.
    + rewrite lookup_insert_Some. intros [[_ <-]|[_ H]]; [reflexivity|].
      now apply Hinv in H.
    + rewrite lookup_delete_Some. intros [_ H]. now apply Hinv in H.
Qed.

(** X6.  After any sequence of [AddSensitiveKey] and [RemoveSensitiveKey]
    the registry holds no key with the value [false]: a key is sensitive
    exactly when its lower-case form is stored. *)
Theorem sensitive_iff_stored (calls : list RegistryCall) (k : string) :
  isSensitiveKey (registry_after calls) k = true
  <-> is_Some (registry_after calls !! ToLower k).
Proof.
  unfold isSensitiveKey. split.
  - destruct (registry_after calls !! ToLower k); [eauto | discriminate].
  - intros [b Hb]. rewrite Hb. simpl. now apply registry_values_true in Hb.
Qed.

(** X7.  Adding or removing a key changes the answer of [isSensitiveKey]
    only for the keys with the same lower-case form. *)
Theorem registry_calls_leave_other_keys
    (keys : gmap string bool) (k j : string) :
  ToLower j <> ToLower k ->
  isSensitiveKey (AddSensitiveKey k keys) j = isSensitiveKey keys j
  /\ isSensitiveKey (RemoveSensitiveKey k keys) j = isSensitiveKey keys j.
Proof.
  intros Hne. unfold isSensitiveKey, AddSensitiveKey, RemoveSensitiveKey.
  rewrite lookup_insert_ne by congruence.
  rewrite lookup_delete_ne by congruence. auto.
Qed.

(** X8.  Calls on the registry commute, except an add and a remove of the
    same key, of which the later one wins: removing after adding leaves
    the key absent, adding after removing leaves it present. *)
Theorem registry_calls_commute_and_the_last_wins
    (keys : gmap string bool) (k1 k2 : string) :
  AddSensitiveKey k1 (AddSensitiveKey k2 keys)
  = AddSensitiveKey k2 (AddSensitiveKey k1 keys)
  /\ RemoveSensitiveKey k1 (RemoveSensitiveKey k2 keys)
     = RemoveSensitiveKey k2 (RemoveSensitiveKey k1 keys)
  /\ (ToLower k1 <> ToLower k2 ->
      AddSensitiveKey k1 (RemoveSensitiveKey k2 keys)
      = RemoveSensitiveKey k2 (AddSensitiveKey k1 keys))
  /\ RemoveSensitiveKey k1 (AddSensitiveKey k1 keys)
     = RemoveSensitiveKey k1 keys
  /\ AddSensitiveKey k1 (RemoveSensitiveKey k1 keys)
     = AddSensitiveKey k1 keys
  /\ isSensitiveKey (RemoveSensitiveKey k1 (AddSensitiveKey k1 keys)) k1
     = false
  /\ isSensitiveKey (AddSensitiveKey k1 (RemoveSensitiveKey k1 keys)) k1
     = true.
Proof.
  unfold AddSensitiveKey, RemoveSensitiveKey, isSensitiveKey.
  repeat split.
  - destruct (decide (ToLower k1 = ToLower k2)) as [->|Hne]; [reflexivity|].
    now apply insert_insert_ne.
  - apply delete_delete.
  - intros Hne. symmetry. now apply delete_insert_ne.
  - apply delete_insert_eq.
  - apply insert_delete_eq.
  - now rewrite lookup_delete_eq.
  - now rewrite lookup_insert_eq.
Qed.

(** ** Levels and [New] *)

Ltac case_level l :=
  repeat match goal with
         | |- context [Z.eqb l ?n] => destruct (Z.eqb_spec l n)
         end.

(** X9.  [String] gives the six levels six different names, and the name
    "UNKNOWN" to every other value and to no level. *)
Theorem Level_String_names_the_six_levels (l l' : Z) :
  (Level_String l = "UNKNOWN" <-> (l < TraceLevel \/ FatalLevel < l)%Z)
  /\ ((TraceLevel <= l <= FatalLevel)%Z ->
      Level_String l = Level_String l' -> l = l').
Proof.
  unfold Level_String, TraceLevel, DebugLevel, InfoLevel, WarnLevel,
    ErrorLevel, FatalLevel.
  split; [split|].
  - case_level l; try (intros H; discriminate H). intros _. lia.
  - intros H. case_level l; try lia. reflexivity.
  - intros Hl. case_level l; try lia; case_level l'; subst;
      try reflexivity; intros H; discriminate H.
Qed.

(** [New] by the cases of its configuration. *)
Lemma New_cases (c : Config) (st : State) :
  New (Some c) st =
  if Development c then
    Ret (Some (length (heap_loggers st)), None)
        (after_New (engine_of c ConsoleEncoder Stdout) st)
  else if String.eqb (OutputPath c) "" then
    Ret (Some (length (heap_loggers st)), None)
        (after_New (engine_of c JSONEncoder Stdout) st)
  else
    match OpenFile (OutputPath c) with
    | Some err => Ret (None, Some ("failed to open log file: " ++ err)) st
    | None =>
        Ret (Some (length (heap_loggers st)), None)
            (after_New (engine_of c JSONEncoder (LogFile (OutputPath c))) st)
    end.
Proof.
  unfold New. destruct (Development c); [reflexivity|].
  destruct (String.eqb (OutputPath c) ""); simpl; [reflexivity|].
  destruct (OpenFile (OutputPath c)); reflexivity.
Qed.

(** X10.  [New] returns an error exactly when the configuration is not in
    development mode, names an output file, and that file cannot be
    opened.  The error then wraps the one of the file system, no logger is
    returned and the state is as before: no engine and no logger were
    made.  In development mode the output path is not looked at. *)
Theorem New_fails_exactly_on_an_unopenable_file
    (c : Config) (st : State) :
  exists p e st',
    New (Some c) st = Ret (p, e) st'
    /\ (e <> None <->
        Development c = false /\ OutputPath c <> ""
        /\ OpenFile (OutputPath c) <> None)
    /\ (forall msg, e = Some msg ->
          p = None /\ st' = st
          /\ exists err, OpenFile (OutputPath c) = Some err
                         /\ msg = "failed to open log file: " ++ err).
Proof.
  rewrite New_cases.
  destruct (Development c).
  { eexists _, _, _. split; [reflexivity|]. split.
    - split; [congruence | intros (H & _); discriminate].
    - discriminate. }
  destruct (String.eqb_spec (OutputPath c) "") as [Hp|Hp].
  { eexists _, _, _. split; [reflexivity|]. split.
    - split; [congruence | intros (_ & H & _); contradiction].
    - discriminate. }
  destruct (OpenFile (OutputPath c)) as [err|].
  - eexists _, _, _. split; [reflexivity|]. split.
    + split; [intros _; repeat split; congruence | discriminate].
    + intros msg [= <-]. repeat split. eauto.
  - eexists _, _, _. split; [reflexivity|]. split.
    + split; [congruence | intros (_ & _ & H); contradiction].
    + discriminate.
Qed.

(** X11.  When [New] returns no error it returns a new logger without
    sticky fields on a new engine (no logger made before holds it); the
    engine has the options of the configuration.  The loggers and engines
    made before, what their slices read, the registry and the default
    logger are as before, and nothing is logged. *)
Theorem New_makes_an_independent_logger
    (c : Config) (st st' : State) (p : option nat) :
  New (Some c) st = Ret (p, None) st' ->
  exists L Z,
    p = Some (length (heap_loggers st))
    /\ heap_loggers st' !! length (heap_loggers st) = Some L
    /\ elems st' (fields L) = []
    /\ logger_ok st' L
    /\ zapLogger L = length (heap_zap st)
    /\ heap_zap st' !! zapLogger L = Some Z
    /\ with_caller Z = AddCaller c
    /\ with_stacktrace Z = AddStacktrace c
    /\ core_level Z = zapLevel_of (Level c)
    /\ (forall q Q, heap_loggers st !! q = Some Q ->
                    heap_loggers st' !! q = Some Q)
    /\ (forall q Q, heap_loggers st !! q = Some Q ->
                    is_Some (heap_zap st !! zapLogger Q) ->
                    zapLogger Q <> zapLogger L)
    /\ (forall t, slice_ok st t ->
                  slice_ok st' t /\ elems st' t = elems st t)
    /\ (forall z, (z < length (heap_zap st))%nat ->
                  heap_zap st' !! z = heap_zap st !! z)
    /\ zap_calls st' = zap_calls st
    /\ var_sensitiveKeys st' = var_sensitiveKeys st
    /\ var_defaultLogger st' = var_defaultLogger st.
Proof.
  rewrite New_cases. intros H.
  assert (Hst : exists z, st' = after_New (engine_of c (core_encoder z)
                                             (core_output z)) st
                          /\ p = Some (length (heap_loggers st))).
  { destruct (Development c).
    - inversion H. now exists (engine_of c ConsoleEncoder Stdout).
    - destruct (String.eqb (OutputPath c) "").
      + inversion H. now exists (engine_of c JSONEncoder Stdout).
      + destruct (OpenFile (OutputPath c)); inversion H.
        now exists (engine_of c JSONEncoder (LogFile (OutputPath c))). }
  destruct Hst as (z & -> & ->). clear H.
  eexists _, _. split; [reflexivity|].
  split; [simpl; now apply list_lookup_middle|].
  split; [unfold elems; simpl; now rewrite list_lookup_middle|].
  split.
  { split; [|split; [reflexivity|]].
    - exists []. simpl. split; [now apply list_lookup_middle | lia].
    - simpl. rewrite list_lookup_middle; eauto. }
  split; [reflexivity|].
  split; [simpl; now apply list_lookup_middle|].
  split; [reflexivity|]. split; [reflexivity|]. split; [reflexivity|].
  split.
  { intros q Q HQ. simpl. rewrite lookup_app_l; [exact HQ|].
    apply lookup_lt_is_Some. eauto. }
  split.
  { intros q Q HQ Hz. apply lookup_lt_is_Some in Hz. simpl. lia. }
  split.
  { intros t (b & Hb & Hcap).
    assert (Hb' : (heap_arrays st ++ [[]])%list !! s_array t = Some b).
    { rewrite lookup_app_l; [exact Hb|]. apply lookup_lt_is_Some. eauto. }
    split; [exists b; simpl; auto|]. unfold elems. simpl. now rewrite Hb', Hb. }
  split; [|repeat split].
  intros z0 Hz0. simpl. now rewrite lookup_app_l.
Qed.


(** ** Loggers made by [New] and [With] *)

(** On a full slice [append] either has nothing to add or moves to a new
    array: every slice in the heap reads as before. *)
Lemma append_full_spec (s : Slice) (xs : list Field) (st : State) :
  slice_ok st s ->
  s_cap s = s_len s ->
  exists s' h',
    append s xs st = Ret s' (with_arrays h' st)
    /\ elems (with_arrays h' st) s' = (elems st s ++ xs)%list
    /\ (forall t, slice_ok st t ->
                  slice_ok (with_arrays h' st) t
                  /\ elems (with_arrays h' st) t = elems st t).
Proof.
  intros Hok Hfull. pose proof (elems_length st s Hok) as Hel.
  destruct Hok as (a & Ha & Hcap & Hlen).
  unfold append. destruct xs as [|x xs].
  - (* nothing to add *)
    simpl length. rewrite Nat.add_0_r, Hfull, Nat.leb_refl.
    set (f := fun a0 : list Field => (take (s_len s) a0 ++ [] ++ drop (s_len s) a0)%list).
    assert (Hsame : forall j, alter f (s_array s) (heap_arrays st) !! j
                              = heap_arrays st !! j).
    { intros j. destruct (decide (s_array s = j)) as [<-|NE].
      - rewrite list_lookup_alter_eq. destruct (heap_arrays st !! s_array s);
          [|reflexivity]. simpl. f_equal. unfold f. simpl. apply take_drop.
      - now apply list_lookup_alter_ne. }
    eexists _, _. split; [reflexivity|]. split.
    + unfold elems. simpl. rewrite Hsame, app_nil_r. reflexivity.
    + intros t (b & Hb & Hbc). split.
      * exists b. simpl. rewrite Hsame. auto.
      * unfold elems. simpl. now rewrite Hsame.
  - (* a new backing array *)
    destruct (Nat.leb_spec (s_len s + length (x :: xs)) (s_cap s)) as [Hroom|_];
      [simpl in Hroom; lia|].
    set (n := (s_len s + length (x :: xs))%nat).
    set (c := Nat.max n (growslice (s_cap s) n)).
    set (a' := (elems st s ++ (x :: xs) ++ replicate (c - n) zero_Field)%list).
    assert (Ha' : (heap_arrays st ++ [a'])%list !! length (heap_arrays st)
                  = Some a') by (now apply list_lookup_middle).
    eexists _, _. split; [reflexivity|]. split.
    + unfold elems at 1. simpl s_array. simpl s_len. simpl heap_arrays.
      rewrite Ha'. simpl default. unfold a'.
      rewrite app_assoc. apply take_app_length'.
      rewrite length_app, Hel. reflexivity.
    + intros t (b & Hb & Hbc).
      assert (Hb' : (heap_arrays st ++ [a'])%list !! s_array t = Some b).
      { rewrite lookup_app_l; [exact Hb|]. apply lookup_lt_is_Some. eauto. }
      split.
      * exists b. simpl. auto.
      * unfold elems. simpl. now rewrite Hb', Hb.
Qed.

Lemma append_header (s s' : Slice) (xs : list Field) (st st' : State) :
  append s xs st = Ret s' st' ->
  s_len s' = (s_len s + length xs)%nat
  /\ ((s_len s + length xs <= s_cap s)%nat -> s_cap s' = s_cap s).
Proof.
  unfold append.
  destruct (Nat.leb_spec (s_len s + length xs) (s_cap s)); intros [= <- _];
    simpl; split; auto; lia.
Qed.

(** A leveled method on a logger whose slice is full. *)
Lemma log_method_full (m : LevelMethod) (st : State) (p : nat) (L : Logger)
    (msg : string) (fs : list Field) :
  heap_loggers st !! p = Some L ->
  logger_ok st L ->
  exists h' zfs,
    let st' :=
      set_calls (fun c => (c ++ [{| entry_engine := zapLogger L;
                                    entry_level := method_level m;
                                    entry_msg := msg;
                                    entry_fields := zfs |}])%list)
                (with_arrays h' st) in
    call_method m (Some p) msg fs st = finish m st'
    /\ Forall2 (masked_as (var_sensitiveKeys st))
               (elems st (fields L) ++ fs)%list zfs
    /\ (forall t, slice_ok st t ->
                  slice_ok st' t /\ elems st' t = elems st t).
Proof.
  intros HL (Hok & Hfull & [z Hz]).
  destruct (append_full_spec (fields L) fs st Hok Hfull)
    as (s' & h' & Happ & Hel & Hframe).
  destruct (convertFields_loop_spec (elems st (fields L) ++ fs)%list []
              (with_arrays h' st)) as (zfs & Hloop & Hall).
  exists h', zfs. split; [|split; [exact Hall | exact Hframe]].
  destruct m; cbn [call_method finish method_level];
    unfold Logger_Trace, Logger_Debug, Logger_Info, Logger_Warn,
      Logger_Error, Logger_Fatal, zap_Fatal, convertFields, range,
      mbind, M_bind, deref;
    rewrite HL, Happ, Hel, Hloop; unfold zap_log;
    cbn [heap_zap with_arrays set_arrays]; rewrite Hz; reflexivity.
Qed.

(** [With] makes a logger whose slice is full. *)
Lemma With_full (st : State) (p : nat) (L : Logger) (fs : list Field) :
  heap_loggers st !! p = Some L ->
  slice_ok st (fields L) ->
  exists h' C,
    let st' := set_loggers (fun l => (l ++ [C])%list) (with_arrays h' st) in
    Logger_With (Some p) fs st = Ret (Some (length (heap_loggers st))) st'
    /\ zapLogger C = zapLogger L
    /\ slice_ok st' (fields C)
    /\ s_cap (fields C) = s_len (fields C)
    /\ elems st' (fields C) = (elems st (fields L) ++ fs)%list
    /\ (forall t, slice_ok st t ->
                  slice_ok st' t /\ elems st' t = elems st t).
Proof.
  intros HL Hok. pose proof (elems_length st _ Hok) as Hlen.
  set (n := (s_len (fields L) + length fs)%nat).
  set (s0 := {| s_array := length (heap_arrays st); s_len := 0; s_cap := n |}).
  set (st0 := set_arrays (fun h => (h ++ [replicate n zero_Field])%list) st).
  assert (Hmake : forall t, slice_ok st t ->
                    slice_ok st0 t /\ elems st0 t = elems st t).
  { intros t (b & Hb & Hbcap & Hblen).
    assert (Hb' : heap_arrays st0 !! s_array t = Some b).
    { simpl. rewrite lookup_app_l; [exact Hb|]. apply lookup_lt_is_Some. eauto. }
    split; [exists b; auto|]. unfold elems. now rewrite Hb', Hb. }
  assert (Hok0 : slice_ok st0 s0).
  { exists (replicate n zero_Field). simpl.
    split; [now apply list_lookup_middle|]. rewrite length_replicate. lia. }
  destruct (append_spec s0 (elems st (fields L)) st0 Hok0)
    as (s1 & h1 & Happ1 & Hok1 & Hel1 & Hle1 & Hframe1).
  destruct (append_header _ _ _ _ _ Happ1) as [Hl1 Hc1].
  destruct (append_spec s1 fs (with_arrays h1 st0) Hok1)
    as (s2 & h2 & Happ2 & Hok2 & Hel2 & Hle2 & Hframe2).
  destruct (append_header _ _ _ _ _ Happ2) as [Hl2 Hc2].
  simpl in Hl1, Hc1. rewrite Hlen in Hl1, Hc1.
  assert (Hcap1 : s_cap s1 = n) by (apply Hc1; unfold n; lia).
  assert (Hfull2 : s_cap s2 = s_len s2)
    by (rewrite Hc2, Hl2, Hl1, Hcap1; unfold n; lia).
  exists h2, {| zapLogger := zapLogger L; fields := s2 |}.
  assert (Hold : forall t, slice_ok st t ->
                   slice_ok (with_arrays h2 st) t
                   /\ elems (with_arrays h2 st) t = elems st t).
  { intros t Ht. pose proof (slice_ok_in_heap st t Ht) as Hin.
    destruct (Hmake t Ht) as [Ht0 Et0].
    destruct (Hframe1 t Ht0) as [Ht1 Et1]; [left; simpl; lia|].
    destruct (Hframe2 t Ht1) as [Ht2 Et2]; [left; simpl in Hle1; lia|].
    split; [exact Ht2|]. change (with_arrays h2 st)
      with (with_arrays h2 (with_arrays h1 st0)). congruence. }
  split; [|split; [reflexivity | split; [exact Hok2
           | split; [exact Hfull2 | split; [|exact Hold]]]]].
  - unfold Logger_With, range, mbind, M_bind, deref, make_slice, new_Logger.
    rewrite HL. fold n. fold st0. fold s0.
    rewrite (proj2 (Hmake _ Hok)), Happ1, Happ2. reflexivity.
  - change (elems (with_arrays h2 (with_arrays h1 st0)) s2
            = (elems st (fields L) ++ fs)%list).
    rewrite Hel2, Hel1. reflexivity.
Qed.

Lemma call_method_inv (m : LevelMethod) (p : nat) (msg : string)
    (fs : list Field) (st : State) (o : Outcome unit) :
  call_method m (Some p) msg fs st = o ->
  (forall st', o <> Panic st') ->
  exists L, heap_loggers st !! p = Some L.
Proof.
  intros H Hnp. destruct (heap_loggers st !! p) as [L|] eqn:E; [eauto|].
  exfalso. apply (Hnp st). rewrite <- H.
  destruct m; cbn [call_method];
    unfold Logger_Trace, Logger_Debug, Logger_Info, Logger_Warn,
      Logger_Error, Logger_Fatal, mbind, M_bind, deref;
    now rewrite E.
Qed.

Lemma With_inv (p : nat) (fs : list Field) (st st' : State) (c : option nat) :
  Logger_With (Some p) fs st = Ret c st' ->
  exists L, heap_loggers st !! p = Some L.
Proof.
  intros H. destruct (heap_loggers st !! p) as [L|] eqn:E; [eauto|].
  unfold Logger_With, mbind, M_bind, deref in H. now rewrite E in H.
Qed.

Lemma logger_ok_frame (st st' : State) (L : Logger) :
  logger_ok st L ->
  (forall t, slice_ok st t -> slice_ok st' t) ->
  (forall z, is_Some (heap_zap st !! z) -> is_Some (heap_zap st' !! z)) ->
  logger_ok st' L.
Proof. intros (H1 & H2 & H3) Hs Hz. repeat split; auto. Qed.

Lemma heap_ok_method (m : LevelMethod) (p : nat) (msg : string)
    (fs : list Field) (st st' : State) :
  heap_ok st ->
  call_method m (Some p) msg fs st = Ret tt st' ->
  heap_ok st'.
Proof.
  intros (Hl & Hd & Ho) H.
  destruct (call_method_inv _ _ _ _ _ _ H) as [L HL]; [discriminate|].
  destruct (log_method_full m st p L msg fs HL (Hl _ _ HL))
    as (h' & zfs & Hcall & _ & Hframe).
  cbv zeta in *. rewrite Hcall in H.
  assert (E : st' = set_calls
                      (fun c => (c ++ [{| entry_engine := zapLogger L;
                                          entry_level := method_level m;
                                          entry_msg := msg;
                                          entry_fields := zfs |}])%list)
                      (with_arrays h' st))
    by (destruct m; cbn [finish] in H; try discriminate H;
        injection H as E; symmetry; exact E).
  subst st'. split; [|split; [exact Hd | exact Ho]].
  intros q Q HQ. apply (logger_ok_frame st); [now apply (Hl q) | | auto].
  intros t Ht. now apply Hframe.
Qed.

Lemma heap_ok_With (p : nat) (fs : list Field) (st st' : State)
    (c : option nat) :
  heap_ok st ->
  Logger_With (Some p) fs st = Ret c st' ->
  heap_ok st'.
Proof.
  intros (Hl & Hd & Ho) H.
  destruct (With_inv _ _ _ _ _ H) as [L HL].
  destruct (Hl _ _ HL) as (Hok & Hfull & Hz).
  destruct (With_full st p L fs HL Hok)
    as (h' & C & Hwith & HzC & HokC & HfullC & _ & Hframe).
  cbv zeta in *. rewrite Hwith in H. injection H as _ <-.
  split; [|split; [|exact Ho]].
  - intros q Q HQ. simpl in HQ.
    apply lookup_app_Some in HQ as [HQ|[_ HQ]].
    + apply (logger_ok_frame st); [now apply (Hl q) | | auto].
      intros t Ht. now apply Hframe.
    + apply list_lookup_singleton_Some in HQ as [_ <-].
      split; [exact HokC|]. split; [exact HfullC|]. now rewrite HzC.
  - intros q Hq. simpl. apply lookup_lt_is_Some. rewrite length_app.
    specialize (Hd q Hq). apply lookup_lt_is_Some in Hd. lia.
Qed.

Lemma after_New_new_logger_ok (z : ZapLogger) (st : State) :
  logger_ok (after_New z st)
    {| zapLogger := length (heap_zap st);
       fields := {| s_array := length (heap_arrays st);
                    s_len := 0; s_cap := 0 |} |}.
Proof.
  split; [|split; [reflexivity|]].
  - exists []. simpl. split; [now apply list_lookup_middle | lia].
  - simpl. rewrite list_lookup_middle; eauto.
Qed.

Lemma after_New_frame (z : ZapLogger) (st : State) (L : Logger) :
  logger_ok st L -> logger_ok (after_New z st) L.
Proof.
  intros H. apply (logger_ok_frame st); [exact H| |].
  - intros t (b & Hb & Hc). exists b. simpl. split; [|exact Hc].
    rewrite lookup_app_l; [exact Hb|]. apply lookup_lt_is_Some. eauto.
  - intros z0 Hz. simpl. apply lookup_lt_is_Some. rewrite length_app.
    apply lookup_lt_is_Some in Hz. lia.
Qed.

Lemma New_outcome (c : Config) (st st' : State) (r : option nat * option string) :
  New (Some c) st = Ret r st' ->
  (st' = st /\ fst r = None /\ snd r <> None)
  \/ (exists z, st' = after_New z st
                /\ r = (Some (length (heap_loggers st)), None)).
Proof.
  rewrite New_cases.
  destruct (Development c); [intros [= <- <-]; right; eauto|].
  destruct (String.eqb (OutputPath c) ""); [intros [= <- <-]; right; eauto|].
  destruct (OpenFile (OutputPath c)); intros [= <- <-];
    [left; repeat split; discriminate | right; eauto].
Qed.

Lemma heap_ok_after_New (z : ZapLogger) (st : State) :
  heap_ok st -> heap_ok (after_New z st).
Proof.
  intros (Hl & Hd & Ho). split; [|split; [|exact Ho]].
  - intros q Q HQ. simpl in HQ.
    apply lookup_app_Some in HQ as [HQ|[_ HQ]].
    + apply after_New_frame. now apply (Hl q).
    + apply list_lookup_singleton_Some in HQ as [_ <-].
      apply after_New_new_logger_ok.
  - intros q Hq. simpl. apply lookup_lt_is_Some. rewrite length_app.
    specialize (Hd q Hq). apply lookup_lt_is_Some in Hd. lia.
Qed.

Lemma heap_ok_Init (c : option Config) (st st' : State) (e : option string) :
  heap_ok st -> Init c st = Ret e st' -> heap_ok st'.
Proof.
  intros Hok H. unfold Init, get, modify, mbind, M_bind in H.
  destruct (var_once st) eqn:Eo; [injection H as _ <-; exact Hok|].
  destruct c as [c|]; [|discriminate H].
  destruct (New (Some c) (set_once true st)) as [r st0| |] eqn:EN;
    try discriminate H.
  injection H as _ <-.
  destruct Hok as (Hl & Hd & Ho).
  assert (Hok1 : heap_ok (set_once true st))
    by (split; [exact Hl | split; [exact Hd | discriminate]]).
  destruct (New_outcome _ _ _ _ EN) as [(-> & Hr & _)|(z & -> & ->)].
  - rewrite Hr. split; [exact Hl | split; discriminate].
  - destruct (heap_ok_after_New z _ Hok1) as (Hl' & _ & _).
    split; [exact Hl' | split; [|discriminate]].
    intros q [= <-]. simpl. rewrite list_lookup_middle; eauto.
Qed.

Lemma heap_ok_Step (st st' : State) : heap_ok st -> Step st st' -> heap_ok st'.
Proof.
  intros Hok HS. destruct HS as
    [c st st' r H | c st st' e H | p fs st st' c H | m p msg fs st st' H
    | m p format args st st' H | m msg fs st st' H | fs st st' c H
    | key st | key st].
  - destruct (New_outcome _ _ _ _ H) as [(-> & _)|(z & -> & _)];
      [exact Hok | now apply heap_ok_after_New].
  - eapply heap_ok_Init; eauto.
  - eapply heap_ok_With; eauto.
  - eapply heap_ok_method; eauto.
  - apply (heap_ok_method m p (Sprintf format args) [] st st' Hok).
    rewrite <- H. destruct m; reflexivity.
  - assert (E : call_logx m msg fs st
                = match var_defaultLogger st with
                  | Some q => call_method m (Some q) msg fs st
                  | None => finish m st
                  end)
      by (destruct m; cbn [call_logx call_method];
          unfold logx_Trace, logx_Debug, logx_Info, logx_Warn, logx_Error,
            logx_Fatal, get, mbind, M_bind;
          destruct (var_defaultLogger st); reflexivity).
    rewrite E in H. destruct (var_defaultLogger st) as [q|].
    + eapply heap_ok_method; eauto.
    + destruct m; simpl in H; try discriminate; now injection H as <-.
  - unfold logx_With, get, mbind, M_bind in H.
    destruct (var_defaultLogger st) as [q|].
    + eapply heap_ok_With; eauto.
    + now injection H as _ <-.
  - exact Hok.
  - exact Hok.
Qed.

Lemma heap_ok_initial : heap_ok initial_state.
Proof.
  split; [|split]; [intros p L H; discriminate H
                   | intros p H; discriminate H | reflexivity].
Qed.

(** X13.  In every state the process can reach, each logger in the heap is
    as [New] and [With] make them: its slice lies in the heap and is full,
    and its engine exists; [defaultLogger], when set, points to such a
    logger, and it is set only after [Init] has run. *)
Theorem reachable_states_hold_usable_loggers (st : State) :
  reachable st -> heap_ok st.
Proof.
  induction 1 as [|st st' _ IH HS].
  - apply heap_ok_initial.
  - now apply (heap_ok_Step st).
Qed.

(** X14.  In a reachable state a leveled method on any logger of the heap
    does not panic: the engine of the logger receives the one entry.  The
    call changes no logger and no sticky field of any logger, nor the
    engines, the registry or the default logger. *)
Theorem leveled_methods_never_panic_nor_touch_loggers
    (m : LevelMethod) (st : State) (p : nat) (L : Logger) (msg : string)
    (fs : list Field) :
  reachable st ->
  heap_loggers st !! p = Some L ->
  exists st' zfs,
    call_method m (Some p) msg fs st = finish m st'
    /\ zap_calls st'
       = (zap_calls st ++ [{| entry_engine := zapLogger L;
                              entry_level := method_level m;
                              entry_msg := msg;
                              entry_fields := zfs |}])%list
    /\ Forall2 (masked_as (var_sensitiveKeys st))
               (elems st (fields L) ++ fs)%list zfs
    /\ heap_loggers st' = heap_loggers st
    /\ (forall q Q, heap_loggers st !! q = Some Q ->
                    elems st' (fields Q) = elems st (fields Q))
    /\ heap_zap st' = heap_zap st
    /\ var_sensitiveKeys st' = var_sensitiveKeys st
    /\ var_defaultLogger st' = var_defaultLogger st.
Proof.
  intros Hr HL.
  assert (Hok : heap_ok st)
    by (clear HL; induction Hr;
        [apply heap_ok_initial | eapply heap_ok_Step; eauto]).
  destruct Hok as (Hl & _).
  destruct (log_method_full m st p L msg fs HL (Hl _ _ HL))
    as (h' & zfs & Hcall & Hall & Hframe).
  eexists _, zfs. split; [exact Hcall|]. split; [reflexivity|].
  split; [exact Hall|]. split; [reflexivity|].
  split; [|repeat split].
  intros q Q HQ. destruct (Hl _ _ HQ) as (HokQ & _).
  now apply Hframe.
Qed.

(** X15.  In a reachable state [With] on a logger of the heap does not
    panic.  Every leveled method on the child emits the sticky fields of
    the parent, then the fields given to [With], then the call-site
    fields, to the engine of the parent; and [With] on the child gives a
    logger whose sticky fields are those of the parent followed by the
    fields of the two calls, in the order of the calls. *)
Theorem child_loggers_emit_the_fields_of_every_With
    (st : State) (p : nat) (L : Logger) (fs : list Field) :
  reachable st ->
  heap_loggers st !! p = Some L ->
  exists c C st',
    Logger_With (Some p) fs st = Ret (Some c) st'
    /\ heap_loggers st' !! c = Some C
    /\ reachable st'
    /\ (forall m msg fs', exists st'' zfs,
          call_method m (Some c) msg fs' st' = finish m st''
          /\ zap_calls st''
             = (zap_calls st ++ [{| entry_engine := zapLogger L;
                                    entry_level := method_level m;
                                    entry_msg := msg;
                                    entry_fields := zfs |}])%list
          /\ Forall2 (masked_as (var_sensitiveKeys st))
                     (elems st (fields L) ++ fs ++ fs')%list zfs)
    /\ (forall gs, exists c2 C2 st2,
          Logger_With (Some c) gs st' = Ret (Some c2) st2
          /\ heap_loggers st2 !! c2 = Some C2
          /\ zapLogger C2 = zapLogger L
          /\ elems st2 (fields C2)
             = (elems st (fields L) ++ fs ++ gs)%list).
Proof.
  intros Hr HL.
  assert (Hok : heap_ok st)
    by (clear HL; induction Hr;
        [apply heap_ok_initial | eapply heap_ok_Step; eauto]).
  destruct Hok as (Hl & _). destruct (Hl _ _ HL) as (HokL & _ & Hz).
  destruct (With_full st p L fs HL HokL)
    as (h' & C & Hwith & HzC & HokC & HfullC & HelC & _).
  cbv zeta in *.
  set (st' := set_loggers (fun l => (l ++ [C])%list) (with_arrays h' st)) in *.
  assert (HC : heap_loggers st' !! length (heap_loggers st) = Some C)
    by (simpl; now apply list_lookup_middle).
  assert (HCok : logger_ok st' C)
    by (split; [exact HokC | split; [exact HfullC | now rewrite HzC]]).
  exists (length (heap_loggers st)), C, st'.
  split; [exact Hwith|]. split; [exact HC|].
  split; [eapply reachable_step; [exact Hr | eapply step_With; exact Hwith]|].
  split.
  - intros m msg fs'.
    destruct (log_method_full m st' _ C msg fs' HC HCok)
      as (h'' & zfs & Hcall & Hall & _).
    rewrite HelC, <- app_assoc in Hall. rewrite HzC in Hcall.
    eexists _, zfs. split; [exact Hcall|]. split; [reflexivity | exact Hall].
  - intros gs.
    destruct (With_full st' _ C gs HC HokC)
      as (h2 & C2 & Hwith2 & HzC2 & _ & _ & HelC2 & _).
    cbv zeta in *. eexists _, C2, _. split; [exact Hwith2|].
    split; [simpl; now apply list_lookup_middle|].
    split; [congruence|]. rewrite HelC2, HelC. now rewrite <- app_assoc.
Qed.

(** ** The package-level functions *)

Lemma call_logx_cases (m : LevelMethod) (msg : string) (fs : list Field)
    (st : State) :
  call_logx m msg fs st
  = match var_defaultLogger st with
    | Some q => call_method m (Some q) msg fs st
    | None => finish m st
    end.
Proof.
  destruct m; cbn [call_logx call_method];
    unfold logx_Trace, logx_Debug, logx_Info, logx_Warn, logx_Error,
      logx_Fatal, get, mbind, M_bind;
    destruct (var_defaultLogger st); reflexivity.
Qed.

(** X16.  Without a default logger the package-level functions do
    nothing: the leveled and the formatted ones return with the state as
    it was, and so nothing is logged, [With] returns [nil], [Sync] returns
    no error, and [Fatal] leaves the process with status 1 without an
    entry. *)
Theorem package_functions_without_default_logger
    (st : State) (msg : string) (fs : list Field) (args : list dyn) :
  var_defaultLogger st = None ->
  logx_Trace msg fs st = Ret tt st
  /\ logx_Debug msg fs st = Ret tt st
  /\ logx_Info msg fs st = Ret tt st
  /\ logx_Warn msg fs st = Ret tt st
  /\ logx_Error msg fs st = Ret tt st
  /\ logx_Tracef msg args st = Ret tt st
  /\ logx_Debugf msg args st = Ret tt st
  /\ logx_Fatal msg fs st = Exit 1 st
  /\ logx_With fs st = Ret None st
  /\ logx_Sync st = Ret None st.
Proof.
  intros H.
  unfold logx_Trace, logx_Debug, logx_Info, logx_Warn, logx_Error,
    logx_Tracef, logx_Debugf, logx_Fatal, logx_With, logx_Sync,
    get, mbind, M_bind.
  rewrite H. repeat split.
Qed.

(** X17.  The default configuration cannot fail, whatever the file
    system: [NewLogger] returns a logger and no error, and the first
    [InitDefault] returns no error and sets the default logger.  Every
    package-level leveled function then hands the new engine one entry
    with the masked call-site fields and no other field. *)
Theorem the_default_configuration_never_fails (st : State) :
  NewLogger st
  = Ret (Some (length (heap_loggers st)), None)
        (after_New (engine_of DefaultConfig JSONEncoder Stdout) st)
  /\ (var_once st = false ->
      exists st1,
        InitDefault st = Ret None st1
        /\ var_defaultLogger st1 = Some (length (heap_loggers st))
        /\ (forall m msg fs, exists st2 zfs,
              call_logx m msg fs st1 = finish m st2
              /\ zap_calls st2
                 = (zap_calls st ++ [{| entry_engine := length (heap_zap st);
                                        entry_level := method_level m;
                                        entry_msg := msg;
                                        entry_fields := zfs |}])%list
              /\ Forall2 (masked_as (var_sensitiveKeys st)) fs zfs)).
Proof.
  split; [unfold NewLogger; now rewrite New_cases|].
  intros Honce.
  set (z := engine_of DefaultConfig JSONEncoder Stdout).
  set (st1 := set_defaultLogger (Some (length (heap_loggers st)))
                (after_New z (set_once true st))).
  exists st1. split; [|split; [reflexivity|]].
  - unfold InitDefault, Init, get, modify, mbind, M_bind.
    rewrite Honce. now rewrite New_cases.
  - intros m msg fs. rewrite call_logx_cases.
    change (var_defaultLogger st1) with (Some (length (heap_loggers st))).
    set (L0 := {| zapLogger := length (heap_zap st);
                  fields := {| s_array := length (heap_arrays st);
                               s_len := 0; s_cap := 0 |} |}).
    assert (HL0 : heap_loggers st1 !! length (heap_loggers st) = Some L0)
      by (simpl; now apply list_lookup_middle).
    assert (Hok0 : logger_ok st1 L0)
      by apply (after_New_new_logger_ok z (set_once true st)).
    destruct (log_method_full m st1 _ L0 msg fs HL0 Hok0)
      as (h' & zfs & Hcall & Hall & _).
    eexists _, zfs. split; [exact Hcall|]. split; [reflexivity|].
    exact Hall.
Qed.

(** X18.  A first [Init] that fails closes the latch with no default
    logger: every later [Init], also with a configuration that would
    succeed, returns no error and sets nothing, so the package-level
    functions stay without effect ([Fatal] exits without an entry). *)
Theorem a_failed_Init_leaves_the_package_silent
    (c : Config) (st st1 : State) (err : string) :
  var_once st = false ->
  Init (Some c) st = Ret (Some err) st1 ->
  st1 = set_defaultLogger None (set_once true st)
  /\ (forall c2, Init c2 st1 = Ret None st1)
  /\ var_defaultLogger st1 = None
  /\ (forall m msg fs, call_logx m msg fs st1 = finish m st1)
  /\ (forall fs, logx_With fs st1 = Ret None st1).
Proof.
  intros Honce H. unfold Init, get, modify, mbind, M_bind in H.
  rewrite Honce in H.
  destruct (New (Some c) (set_once true st)) as [r st0| |] eqn:EN;
    try discriminate H.
  injection H as Hr <-.
  destruct (New_outcome _ _ _ _ EN) as [(-> & Hp & _)|(z & _ & ->)];
    [|discriminate Hr].
  rewrite Hp. split; [reflexivity|]. split; [|split; [reflexivity|split]].
  - intros c2. reflexivity.
  - intros m msg fs. now rewrite call_logx_cases.
  - intros fs. reflexivity.
Qed.

(** X19.  The registry is read when an entry is emitted, not when a field
    is given to [With]: after [AddSensitiveKey] the sticky fields of a
    logger are masked by the registry with the new key, after
    [RemoveSensitiveKey] by the registry without it. *)
Theorem masking_follows_the_registry_at_the_call
    (m : LevelMethod) (st : State) (p : nat) (L : Logger) (msg key : string)
    (fs : list Field) :
  heap_loggers st !! p = Some L ->
  slice_ok st (fields L) ->
  is_Some (heap_zap st !! zapLogger L) ->
  (exists st' zfs,
     (call_AddSensitiveKey key ;; call_method m (Some p) msg fs) st
     = finish m st'
     /\ zap_calls st'
        = (zap_calls st ++ [{| entry_engine := zapLogger L;
                               entry_level := method_level m;
                               entry_msg := msg;
                               entry_fields := zfs |}])%list
     /\ Forall2 (masked_as (AddSensitiveKey key (var_sensitiveKeys st)))
                (elems st (fields L) ++ fs)%list zfs)
  /\ (exists st' zfs,
        (call_RemoveSensitiveKey key ;; call_method m (Some p) msg fs) st
        = finish m st'
        /\ zap_calls st'
           = (zap_calls st ++ [{| entry_engine := zapLogger L;
                                  entry_level := method_level m;
                                  entry_msg := msg;
                                  entry_fields := zfs |}])%list
        /\ Forall2 (masked_as (RemoveSensitiveKey key (var_sensitiveKeys st)))
                   (elems st (fields L) ++ fs)%list zfs).
Proof.
  intros HL Hok Hz. split.
  - destruct (log_method_spec m (set_sensitiveKeys (AddSensitiveKey key) st)
                p L msg fs HL Hok Hz) as (h' & zfs & Hcall & Hall & _).
    eexists _, zfs. split; [exact Hcall|]. split; [reflexivity | exact Hall].
  - destruct (log_method_spec m (set_sensitiveKeys (RemoveSensitiveKey key) st)
                p L msg fs HL Hok Hz) as (h' & zfs & Hcall & Hall & _).
    eexists _, zfs. split; [exact Hcall|]. split; [reflexivity | exact Hall].
Qed.

End Logx.


(** ** The statements on the example runtime *)

Lemma example_unicode_ToLower_lowercase (s : string) :
  GoString.all_bytes GoString.is_ascii_byte s = false ->
  ToLower example_unicode_ToLower (example_unicode_ToLower s)
  = example_unicode_ToLower s.
Proof. intros H. unfold ToLower, example_unicode_ToLower. now rewrite H. Qed.

Lemma example_state_child_ok :
  slice_ok example_state {| s_array := 1; s_len := 1; s_cap := 1 |}.
Proof. eexists. split; [reflexivity|]. simpl. lia. Defined.

Lemma mask_text_follows_the_bands_of_len_witness :
  exists r,
    maskSensitiveData example_unicode_ToLower sensitiveKeys "PassWord"
      (VString "secret123") = Some (VString r)
    /\ banded_rule "secret123" r.
Proof.
  assert (H : isSensitiveKey example_unicode_ToLower sensitiveKeys "PassWord"
              = true) by (vm_compute; reflexivity).
  exact (proj1 (mask_text_follows_the_bands_of_len example_unicode_ToLower
                  sensitiveKeys "PassWord" "secret123" H)).
Defined.

Lemma mask_is_the_identity_on_other_keys_witness :
  maskSensitiveData example_unicode_ToLower sensitiveKeys "username"
    (VInt 42) = Some (VInt 42).
Proof.
  apply (mask_is_the_identity_on_other_keys example_unicode_ToLower
           sensitiveKeys "username" (VInt 42)).
  vm_compute. reflexivity.
Defined.


Lemma mask_is_total_and_other_types_get_the_sentinel_witness :
  maskSensitiveData example_unicode_ToLower sensitiveKeys "secret"
    (VInt 12345) = Some (VString "***MASKED***").
Proof.
  apply (proj2 (mask_is_total_and_other_types_get_the_sentinel
                  example_unicode_ToLower sensitiveKeys "secret" (VInt 12345))).
  - vm_compute. reflexivity.
  - reflexivity.
  - reflexivity.
Defined.

Lemma registry_is_case_insensitive_and_idempotent_witness :
  isSensitiveKey example_unicode_ToLower
    (AddSensitiveKey example_unicode_ToLower "Session_ID" sensitiveKeys)
    "SESSION_id" = true
  /\ isSensitiveKey example_unicode_ToLower
       (RemoveSensitiveKey example_unicode_ToLower "Session_ID" sensitiveKeys)
       "SESSION_id" = false.
Proof.
  assert (H : case_variant example_unicode_ToLower "Session_ID" "SESSION_id")
    by reflexivity.
  destruct (registry_is_case_insensitive_and_idempotent
              example_unicode_ToLower example_unicode_ToLower_lowercase
              sensitiveKeys "Session_ID" "SESSION_id" H) as (Hadd & Hrem & _).
  exact (conj Hadd Hrem).
Defined.

Lemma leveled_methods_emit_sticky_then_call_fields_masked_witness :
  exists st' zfs,
    Logger_Info example_unicode_ToLower example_growslice (Some 1%nat) "hello"
      [{| Key := "Password"; Value := VString "hunter2" |}] example_state
    = Ret tt st'
    /\ zap_calls st'
       = [{| entry_engine := 0; entry_level := zap_InfoLevel;
             entry_msg := "hello"; entry_fields := zfs |}]
    /\ Forall2 (masked_as example_unicode_ToLower sensitiveKeys)
         [{| Key := "user"; Value := VString "bob" |};
          {| Key := "Password"; Value := VString "hunter2" |}] zfs.
Proof.
  apply (leveled_methods_emit_sticky_then_call_fields_masked
           example_unicode_ToLower example_growslice MInfo example_state 1
           {| zapLogger := 0;
              fields := {| s_array := 1; s_len := 1; s_cap := 1 |} |}
           "hello" [{| Key := "Password"; Value := VString "hunter2" |}]).
  - reflexivity.
  - exact example_state_child_ok.
  - eexists. reflexivity.
Defined.

Lemma formatted_methods_are_plain_methods_on_the_formatted_message_witness :
  Logger_Warnf example_unicode_ToLower example_Sprintf example_growslice
    (Some 1%nat) "password is " [VString "hunter2"] example_state
  = Logger_Warn example_unicode_ToLower example_growslice
      (Some 1%nat) "password is hunter2" [] example_state.
Proof.
  apply (proj1 (formatted_methods_are_plain_methods_on_the_formatted_message
                  example_unicode_ToLower example_Sprintf example_growslice
                  MWarn example_state 1
                  {| zapLogger := 0;
                     fields := {| s_array := 1; s_len := 1; s_cap := 1 |} |}
                  "password is " [VString "hunter2"]
                  eq_refl example_state_child_ok
                  (ex_intro _ _ eq_refl))).
Defined.

Lemma With_extends_a_copy_and_leaves_the_parent_witness :
  exists st' c C,
    Logger_With example_growslice (Some 1%nat)
      [{| Key := "request"; Value := VInt 7 |}] example_state
    = Ret (Some c) st'
    /\ c <> 1%nat
    /\ heap_loggers st' !! c = Some C
    /\ zapLogger C = 0%nat
    /\ elems st' (fields C)
       = [{| Key := "user"; Value := VString "bob" |};
          {| Key := "request"; Value := VInt 7 |}]
    /\ elems st' {| s_array := 1; s_len := 1; s_cap := 1 |}
       = [{| Key := "user"; Value := VString "bob" |}].
Proof.
  destruct (With_extends_a_copy_and_leaves_the_parent
              example_unicode_ToLower example_growslice example_state 1
              {| zapLogger := 0;
                 fields := {| s_array := 1; s_len := 1; s_cap := 1 |} |}
              [{| Key := "request"; Value := VInt 7 |}]
              eq_refl example_state_child_ok (ex_intro _ _ eq_refl))
    as (st' & c & C & H1 & H2 & H3 & H4 & H5 & _ & H7 & _).
  exists st', c, C. repeat split; assumption.
Defined.

Lemma Init_is_a_one_shot_latch_returning_nil_afterwards_witness :
  exists p e st0,
    New example_OpenFile (Some DefaultConfig) (set_once true initial_state)
    = Ret (p, e) st0
    /\ Init example_OpenFile (Some DefaultConfig) initial_state
       = Ret e (set_defaultLogger p st0)
    /\ (forall c2 : option Config,
          Init example_OpenFile c2 (set_defaultLogger p st0)
          = Ret None (set_defaultLogger p st0)).
Proof.
  destruct (Init_is_a_one_shot_latch_returning_nil_afterwards
              example_OpenFile initial_state DefaultConfig eq_refl)
    as (p & e & st0 & H1 & H2 & _ & _ & _ & H6).
  exists p, e, st0. repeat split; assumption.
Defined.

(** ** Where the code departs from the specification *)

(** C2.  The rule of the claim, and of the documentation of
    [maskString], is on the characters of the value: one or two characters
    give "***", and first and last characters are kept.  The code counts
    and cuts bytes.  A text of two characters in four bytes is not
    replaced by "***": it is taken for a value of length four and keeps
    its first and its last byte, each one half of a character.  A text of
    one character in three bytes keeps the first and the last byte of
    that character. *)
Lemma text_of_two_characters_is_not_masked_to_stars :
  GoString.RuneCountInString example_two_characters = 2%Z
  /\ GoString.len example_two_characters = 4%Z
  /\ isSensitiveKey example_unicode_ToLower sensitiveKeys "password" = true
  /\ maskSensitiveData example_unicode_ToLower sensitiveKeys "password"
       (VString example_two_characters)
     = Some (VString (String "195" ("***" ++ String "169" EmptyString)))
  /\ maskSensitiveData example_unicode_ToLower sensitiveKeys "password"
       (VString example_two_characters)
     <> Some (VString "***")
  /\ GoString.RuneCountInString example_one_character = 1%Z
  /\ GoString.len example_one_character = 3%Z
  /\ maskSensitiveData example_unicode_ToLower sensitiveKeys "password"
       (VString example_one_character)
     = Some (VString (String "226" ("***" ++ String "172" EmptyString)))
  /\ maskSensitiveData example_unicode_ToLower sensitiveKeys "password"
       (VString example_one_character)
     <> Some (VString "***").
Proof.
  repeat split; try (vm_compute; reflexivity); vm_compute; discriminate.
Qed.

(** After a first [Init] that failed, a second [Init] returns no error: the
    error of the first attempt is not returned again. *)
Lemma Init_after_a_failed_Init_returns_no_error :
  exists err st1,
    Init example_OpenFile (Some example_unopenable_Config) initial_state
    = Ret (Some err) st1
    /\ var_defaultLogger st1 = None
    /\ Init example_OpenFile (Some DefaultConfig) st1 = Ret None st1
    /\ @None string <> Some err.
Proof.
  eexists _, _. split; [vm_compute; reflexivity|].
  split; [reflexivity|]. split; [reflexivity | discriminate].
Qed.



(** ** The further statements on the example runtime *)

Lemma example_state_reachable :
  reachable example_unicode_ToLower example_Sprintf example_OpenFile
    example_growslice example_state.
Proof.
  eapply reachable_step with
    (st := set_defaultLogger (Some 0%nat)
             (after_New (engine_of DefaultConfig JSONEncoder Stdout)
                (set_once true initial_state))).
  - eapply reachable_step; [apply reachable_initial|].
    eapply (step_Init _ _ _ _ (Some DefaultConfig)). vm_compute. reflexivity.
  - eapply (step_With _ _ _ _ 0 [{| Key := "user"; Value := VString "bob" |}]).
    vm_compute. reflexivity.
Defined.

Lemma maskString_keeps_only_the_ends_witness :
  maskString ("se" ++ "cret1" ++ "23") = Some ("se" ++ "***" ++ "23")
  /\ maskString ("se" ++ "rver-room-" ++ "23")
     = maskString ("se" ++ "cret1" ++ "23").
Proof.
  apply (maskString_keeps_only_the_ends "se" "cret1" "rver-room-" "23").
  left. vm_compute. repeat split; discriminate.
Defined.

Lemma maskString_fixed_points_witness :
  maskString "pa***23" = Some "pa***23".
Proof.
  apply (proj2 (maskString_fixed_points "password123") "pa***23").
  - vm_compute. discriminate.
  - reflexivity.
Defined.

Lemma mask_ignores_the_case_of_the_key_witness :
  maskSensitiveData example_unicode_ToLower sensitiveKeys "PassWord"
    (VString "abcd")
  = maskSensitiveData example_unicode_ToLower sensitiveKeys "password"
      (VString "abcd").
Proof.
  apply (mask_ignores_the_case_of_the_key example_unicode_ToLower
           sensitiveKeys "password" "PassWord" (VString "abcd")).
  reflexivity.
Defined.

Lemma typed_fields_are_kept_or_replaced_whole_witness :
  maskSensitiveData example_unicode_ToLower sensitiveKeys
    (Key (Field_Int "pin" 1234)) (Value (Field_Int "pin" 1234))
  = Some (if isSensitiveKey example_unicode_ToLower sensitiveKeys
               (Key (Field_Int "pin" 1234))
          then VString "***MASKED***" else Value (Field_Int "pin" 1234)).
Proof.
  apply (proj1 (typed_fields_are_kept_or_replaced_whole
                  example_unicode_ToLower sensitiveKeys (Field_Int "pin" 1234)
                  (or_introl (ex_intro _ "pin" (ex_intro _ 1234%Z eq_refl))))).
Defined.

Lemma initially_sensitive_iff_builtin_witness :
  In (ToLower example_unicode_ToLower "API_Key") builtin_names.
Proof.
  apply (proj1 (initially_sensitive_iff_builtin example_unicode_ToLower
                  "API_Key")).
  vm_compute. reflexivity.
Defined.

Lemma sensitive_iff_stored_witness :
  is_Some (registry_after example_unicode_ToLower
             [CallAdd "Session"; CallRemove "email"]
           !! ToLower example_unicode_ToLower "SESSION").
Proof.
  apply (proj1 (sensitive_iff_stored example_unicode_ToLower
                  [CallAdd "Session"; CallRemove "email"] "SESSION")).
  vm_compute. reflexivity.
Defined.

Lemma registry_calls_leave_other_keys_witness :
  isSensitiveKey example_unicode_ToLower
    (AddSensitiveKey example_unicode_ToLower "Session" sensitiveKeys)
    "Password"
  = isSensitiveKey example_unicode_ToLower sensitiveKeys "Password"
  /\ isSensitiveKey example_unicode_ToLower
       (RemoveSensitiveKey example_unicode_ToLower "Session" sensitiveKeys)
       "Password"
     = isSensitiveKey example_unicode_ToLower sensitiveKeys "Password".
Proof.
  apply (registry_calls_leave_other_keys example_unicode_ToLower
           sensitiveKeys "Session" "Password").
  vm_compute. discriminate.
Defined.

Lemma registry_calls_commute_and_the_last_wins_witness :
  AddSensitiveKey example_unicode_ToLower "Session"
    (RemoveSensitiveKey example_unicode_ToLower "Email" sensitiveKeys)
  = RemoveSensitiveKey example_unicode_ToLower "Email"
      (AddSensitiveKey example_unicode_ToLower "Session" sensitiveKeys).
Proof.
  destruct (registry_calls_commute_and_the_last_wins example_unicode_ToLower
              sensitiveKeys "Session" "Email") as (_ & _ & H & _).
  apply H. vm_compute. discriminate.
Defined.

Lemma Level_String_names_the_six_levels_witness :
  Level_String 7 = "UNKNOWN" /\ (Level_String 3 = Level_String 3 -> 3 = 3)%Z.
Proof.
  destruct (Level_String_names_the_six_levels 7 0) as [[_ H] _].
  destruct (Level_String_names_the_six_levels 3 3) as [_ H'].
  split.
  - apply H. right. vm_compute. reflexivity.
  - apply H'. vm_compute. split; discriminate.
Defined.

Lemma New_fails_exactly_on_an_unopenable_file_witness :
  exists p e st',
    New example_OpenFile (Some example_unopenable_Config) initial_state
    = Ret (p, e) st'
    /\ e <> None.
Proof.
  destruct (New_fails_exactly_on_an_unopenable_file example_OpenFile
              example_unopenable_Config initial_state)
    as (p & e & st' & H1 & H2 & _).
  exists p, e, st'. split; [exact H1|]. apply (proj2 H2).
  vm_compute. repeat split; discriminate.
Defined.

Lemma New_makes_an_independent_logger_witness :
  exists L,
    heap_loggers (after_New (engine_of DefaultConfig JSONEncoder Stdout)
                    example_state) !! 2%nat = Some L
    /\ elems (after_New (engine_of DefaultConfig JSONEncoder Stdout)
                example_state) (fields L) = []
    /\ zapLogger L = 1%nat.
Proof.
  destruct (New_makes_an_independent_logger example_OpenFile DefaultConfig
              example_state
              (after_New (engine_of DefaultConfig JSONEncoder Stdout)
                 example_state)
              (Some 2%nat) eq_refl)
    as (L & Z & _ & H2 & H3 & _ & H5 & _).
  exists L. repeat split; assumption.
Defined.


Lemma reachable_states_hold_usable_loggers_witness : heap_ok example_state.
Proof.
  apply (reachable_states_hold_usable_loggers example_unicode_ToLower
           example_Sprintf example_OpenFile example_growslice example_state).
  exact example_state_reachable.
Defined.

Lemma leveled_methods_never_panic_nor_touch_loggers_witness :
  exists st' zfs,
    Logger_Error example_unicode_ToLower example_growslice (Some 1%nat)
      "failed" [{| Key := "token"; Value := VString "abc123" |}] example_state
    = Ret tt st'
    /\ zap_calls st'
       = [{| entry_engine := 0; entry_level := zap_ErrorLevel;
             entry_msg := "failed"; entry_fields := zfs |}]
    /\ heap_loggers st' = heap_loggers example_state.
Proof.
  destruct (leveled_methods_never_panic_nor_touch_loggers
              example_unicode_ToLower example_Sprintf example_OpenFile
              example_growslice MError example_state 1
              {| zapLogger := 0;
                 fields := {| s_array := 1; s_len := 1; s_cap := 1 |} |}
              "failed" [{| Key := "token"; Value := VString "abc123" |}]
              example_state_reachable eq_refl)
    as (st' & zfs & H1 & H2 & _ & H4 & _).
  exists st', zfs. repeat split; assumption.
Defined.

Lemma child_loggers_emit_the_fields_of_every_With_witness :
  exists c C st',
    Logger_With example_growslice (Some 1%nat)
      [{| Key := "request"; Value := VInt 7 |}] example_state
    = Ret (Some c) st'
    /\ heap_loggers st' !! c = Some C.
Proof.
  destruct (child_loggers_emit_the_fields_of_every_With
              example_unicode_ToLower example_Sprintf example_OpenFile
              example_growslice example_state 1
              {| zapLogger := 0;
                 fields := {| s_array := 1; s_len := 1; s_cap := 1 |} |}
              [{| Key := "request"; Value := VInt 7 |}]
              example_state_reachable eq_refl)
    as (c & C & st' & H1 & H2 & _).
  exists c, C, st'. split; assumption.
Defined.

Lemma package_functions_without_default_logger_witness :
  logx_Info example_unicode_ToLower example_growslice "hello"
    [{| Key := "user"; Value := VString "bob" |}] initial_state
  = Ret tt initial_state
  /\ logx_Fatal example_unicode_ToLower example_growslice "hello"
       [{| Key := "user"; Value := VString "bob" |}] initial_state
     = Exit 1 initial_state.
Proof.
  destruct (package_functions_without_default_logger
              example_unicode_ToLower example_Sprintf example_growslice
              example_zap_Sync initial_state "hello"
              [{| Key := "user"; Value := VString "bob" |}] [] eq_refl)
    as (_ & _ & H3 & _ & _ & _ & _ & H8 & _).
  split; assumption.
Defined.

Lemma the_default_configuration_never_fails_witness :
  exists st1,
    InitDefault example_OpenFile initial_state = Ret None st1
    /\ var_defaultLogger st1 = Some 0%nat.
Proof.
  destruct (proj2 (the_default_configuration_never_fails
                     example_unicode_ToLower example_OpenFile
                     example_growslice initial_state) eq_refl)
    as (st1 & H1 & H2 & _).
  exists st1. split; assumption.
Defined.

Lemma a_failed_Init_leaves_the_package_silent_witness :
  Init example_OpenFile (Some DefaultConfig)
    (set_defaultLogger None (set_once true initial_state))
  = Ret None (set_defaultLogger None (set_once true initial_state))
  /\ logx_Info example_unicode_ToLower example_growslice "hello" []
       (set_defaultLogger None (set_once true initial_state))
     = Ret tt (set_defaultLogger None (set_once true initial_state)).
Proof.
  destruct (a_failed_Init_leaves_the_package_silent
              example_unicode_ToLower example_OpenFile example_growslice
              example_unopenable_Config initial_state
              (set_defaultLogger None (set_once true initial_state))
              "failed to open log file: open /nonexistent/app.log: no such file or directory"
              eq_refl eq_refl)
    as (_ & H & _ & H' & _).
  split; [apply H | apply (H' MInfo "hello" [])].
Defined.

Lemma masking_follows_the_registry_at_the_call_witness :
  exists st' zfs,
    (call_AddSensitiveKey example_unicode_ToLower "user" ;;
     Logger_Info example_unicode_ToLower example_growslice (Some 1%nat)
       "hello" []) example_state
    = Ret tt st'
    /\ zap_calls st'
       = [{| entry_engine := 0; entry_level := zap_InfoLevel;
             entry_msg := "hello"; entry_fields := zfs |}]
    /\ Forall2 (masked_as example_unicode_ToLower
                  (AddSensitiveKey example_unicode_ToLower "user"
                     sensitiveKeys))
         [{| Key := "user"; Value := VString "bob" |}] zfs.
Proof.
  apply (proj1 (masking_follows_the_registry_at_the_call
                  example_unicode_ToLower example_growslice MInfo
                  example_state 1
                  {| zapLogger := 0;
                     fields := {| s_array := 1; s_len := 1; s_cap := 1 |} |}
                  "hello" "user" [] eq_refl example_state_child_ok
                  (ex_intro _ _ eq_refl))).
Defined.
